(** * Shallow embedding of the multiplayer relay ([apps/api/src/websockets.ts])

    The [WebsocketServer] singleton keeps two JS [Map]s: [clients]
    (socket -> Client) and [cursors] (userId -> Cursor).  Inbound text is
    decoded with [JSON.parse] and dispatched on its [type] tag; outbound
    messages are fanned out with [broadcastToOthers] / [broadcastToAll].

    Modelling choices:
    - a JS string is its sequence of UTF-16 code units, [list N];
    - a JSON value is [jsval]; a JSON number keeps its literal as
      [m * 10^e] (only "is it a number" matters to the relay);
    - a JS [Map] is an association list in insertion order ([Map.set] on a
      present key updates in place, on a fresh key appends);
    - the [cursors] Map is an object on a heap, referenced by a location,
      so that the reference handed out by [getCursors] aliases it;
    - [Date.now()], [new Date()] and [Math.random()] are read from an
      environment record [env] supplied with each event;
    - a thrown exception keeps the effects done before the throw; the
      outer [try/catch] of [handleMessage] turns it into a normal return. *)

From Stdlib Require Import List Bool NArith ZArith Arith Lia String Ascii.
From Stdlib Require Import DecimalString DecimalN.
Import ListNotations.
Set Warnings "-register-all".

(* ------------------------------------------------------------------ *)
(** ** JS strings and values *)

Definition jsstr := list N.

(** A Rocq string literal as a JS string (ASCII code units). *)
Definition js (s : string) : jsstr := map N_of_ascii (list_ascii_of_string s).

(** Same, writing the double quote of a JSON text as an apostrophe. *)
Definition jq (s : string) : jsstr :=
  map (fun c => if N.eqb c 39 then 34%N else c) (js s).

Inductive jsval :=
| JUndef
| JNull
| JBool (b : bool)
| JNum (m : Z) (e : Z)
| JStr (s : jsstr)
| JArr (l : list jsval)
| JObj (kvs : list (jsstr * jsval)).

Fixpoint jsstr_eqb (a b : jsstr) : bool :=
  match a, b with
  | [], [] => true
  | x :: a', y :: b' => N.eqb x y && jsstr_eqb a' b'
  | _, _ => false
  end.

(** Own-property lookup of a JSON object: [JSON.parse] keeps the last
    binding of a duplicated key. *)
Fixpoint obj_get (kvs : list (jsstr * jsval)) (k : jsstr) : option jsval :=
  match kvs with
  | [] => None
  | (k', v) :: r =>
      match obj_get r k with
      | Some v' => Some v'
      | None => if jsstr_eqb k k' then Some v else None
      end
  end.

(* ------------------------------------------------------------------ *)
(** ** [JSON.parse] (RFC 8259 grammar) *)

Module Json.

Definition is_ws (c : N) : bool :=
  N.eqb c 32 || N.eqb c 9 || N.eqb c 10 || N.eqb c 13.

Fixpoint skip_ws (s : jsstr) : jsstr :=
  match s with
  | c :: r => if is_ws c then skip_ws r else s
  | [] => []
  end.

Definition is_digit (c : N) : bool := N.leb 48 c && N.leb c 57.

Definition hex_val (c : N) : option N :=
  if is_digit c then Some (c - 48)%N
  else if N.leb 97 c && N.leb c 102 then Some (c - 87)%N
  else if N.leb 65 c && N.leb c 70 then Some (c - 55)%N
  else None.

(** Body of a string literal, after the opening quote. *)
Fixpoint p_chars (s : jsstr) (acc : jsstr) : option (jsstr * jsstr) :=
  match s with
  | [] => None
  | c :: r =>
      if N.eqb c 34 then Some (rev acc, r)
      else if N.ltb c 32 then None
      else if N.eqb c 92 then
        match r with
        | e :: r' =>
            if N.eqb e 34 then p_chars r' (34 :: acc)%N
            else if N.eqb e 92 then p_chars r' (92 :: acc)%N
            else if N.eqb e 47 then p_chars r' (47 :: acc)%N
            else if N.eqb e 98 then p_chars r' (8 :: acc)%N
            else if N.eqb e 102 then p_chars r' (12 :: acc)%N
            else if N.eqb e 110 then p_chars r' (10 :: acc)%N
            else if N.eqb e 114 then p_chars r' (13 :: acc)%N
            else if N.eqb e 116 then p_chars r' (9 :: acc)%N
            else if N.eqb e 117 then
              match r' with
              | h1 :: h2 :: h3 :: h4 :: r'' =>
                  match hex_val h1, hex_val h2, hex_val h3, hex_val h4 with
                  | Some a, Some b, Some c', Some d =>
                      p_chars r'' ((((a * 16 + b) * 16 + c') * 16 + d) :: acc)%N
                  | _, _, _, _ => None
                  end
              | _ => None
              end
            else None
        | [] => None
        end
      else p_chars r (c :: acc)
  end.

(** One or more digits, accumulated into [n]; returns the count too. *)
Fixpoint p_digits (s : jsstr) (n : Z) (k : Z) : Z * Z * jsstr :=
  match s with
  | c :: r => if is_digit c then p_digits r (n * 10 + Z.of_N (c - 48)) (k + 1)
              else (n, k, s)
  | [] => (n, k, s)
  end.

(** [-? (0 | [1-9][0-9]* ) (. [0-9]+)? ([eE] [+-]? [0-9]+)?] *)
Definition p_number (s : jsstr) : option (jsval * jsstr) :=
  let '(neg, s1) := match s with
                    | c :: r => if N.eqb c 45 then (true, r) else (false, s)
                    | [] => (false, s) end in
  let int_part :=
    match s1 with
    | c :: r =>
        if N.eqb c 48 then Some (0%Z, r)
        else if is_digit c then
          let '(n, _, r') := p_digits s1 0 0 in Some (n, r')
        else None
    | [] => None
    end in
  match int_part with
  | None => None
  | Some (ip, s2) =>
      let frac :=
        match s2 with
        | c :: r =>
            if N.eqb c 46 then
              let '(f, k, r') := p_digits r ip 0 in
              if Z.eqb k 0 then None else Some (f, (- k)%Z, r')
            else Some (ip, 0%Z, s2)
        | [] => Some (ip, 0%Z, s2)
        end in
      match frac with
      | None => None
      | Some (m, e0, s3) =>
          let expo :=
            match s3 with
            | c :: r =>
                if N.eqb c 101 || N.eqb c 69 then
                  let '(sg, r1) := match r with
                                   | d :: r' => if N.eqb d 45 then (true, r')
                                                else if N.eqb d 43 then (false, r')
                                                else (false, r)
                                   | [] => (false, r) end in
                  let '(x, k, r2) := p_digits r1 0 0 in
                  if Z.eqb k 0 then None
                  else Some ((if sg then - x else x)%Z, r2)
                else Some (0%Z, s3)
            | [] => Some (0%Z, s3)
            end in
          match expo with
          | None => None
          | Some (x, s4) => Some (JNum (if neg then - m else m)%Z (e0 + x)%Z, s4)
          end
      end
  end.

Fixpoint p_lit (word : jsstr) (s : jsstr) : option jsstr :=
  match word, s with
  | [], _ => Some s
  | w :: word', c :: s' => if N.eqb w c then p_lit word' s' else None
  | _ :: _, [] => None
  end.

(** [fuel] bounds the nesting; [length s + 1] always suffices since every
    call consumes at least one code unit before recursing. *)
Fixpoint p_value (fuel : nat) (s : jsstr) {struct fuel} : option (jsval * jsstr) :=
  match fuel with
  | O => None
  | S f =>
      match skip_ws s with
      | [] => None
      | c :: r =>
          if N.eqb c 123 then
            match skip_ws r with
            | c' :: r' => if N.eqb c' 125 then Some (JObj [], r') else p_members f [] r
            | [] => None
            end
          else if N.eqb c 91 then
            match skip_ws r with
            | c' :: r' => if N.eqb c' 93 then Some (JArr [], r') else p_elems f [] r
            | [] => None
            end
          else if N.eqb c 34 then
            match p_chars r [] with
            | Some (str, r') => Some (JStr str, r')
            | None => None
            end
          else if N.eqb c 116 then
            option_map (fun r' => (JBool true, r')) (p_lit (js "rue") r)
          else if N.eqb c 102 then
            option_map (fun r' => (JBool false, r')) (p_lit (js "alse") r)
          else if N.eqb c 110 then
            option_map (fun r' => (JNull, r')) (p_lit (js "ull") r)
          else p_number (c :: r)
      end
  end
with p_members (fuel : nat) (acc : list (jsstr * jsval)) (s : jsstr) {struct fuel}
  : option (jsval * jsstr) :=
  match fuel with
  | O => None
  | S f =>
      match skip_ws s with
      | c :: r =>
          if N.eqb c 34 then
            match p_chars r [] with
            | Some (k, r1) =>
                match skip_ws r1 with
                | c1 :: r2 =>
                    if N.eqb c1 58 then
                      match p_value f r2 with
                      | Some (v, r3) =>
                          match skip_ws r3 with
                          | c3 :: r4 =>
                              if N.eqb c3 44 then p_members f (acc ++ [(k, v)]) r4
                              else if N.eqb c3 125 then Some (JObj (acc ++ [(k, v)]), r4)
                              else None
                          | [] => None
                          end
                      | None => None
                      end
                    else None
                | [] => None
                end
            | None => None
            end
          else None
      | [] => None
      end
  end
with p_elems (fuel : nat) (acc : list jsval) (s : jsstr) {struct fuel}
  : option (jsval * jsstr) :=
  match fuel with
  | O => None
  | S f =>
      match p_value f s with
      | Some (v, r) =>
          match skip_ws r with
          | c :: r' =>
              if N.eqb c 44 then p_elems f (acc ++ [v]) r'
              else if N.eqb c 93 then Some (JArr (acc ++ [v]), r')
              else None
          | [] => None
          end
      | None => None
      end
  end.

End Json.

(** [JSON.parse(text)]: [None] when it throws a [SyntaxError]. *)
Definition json_parse (text : jsstr) : option jsval :=
  match Json.p_value (S (List.length text)) text with
  | Some (v, rest) => match Json.skip_ws rest with [] => Some v | _ => None end
  | None => None
  end.

(* ------------------------------------------------------------------ *)
(** ** Maps as in [Map<K, V>]: insertion-ordered association lists *)

Section AssocMap.
Variables K V : Type.
Variable eqk : K -> K -> bool.

(** [m.get(k)] *)
Fixpoint map_get (m : list (K * V)) (k : K) : option V :=
  match m with
  | [] => None
  | (k', v) :: r => if eqk k k' then Some v else map_get r k
  end.

(** [m.set(k, v)]: in place when [k] is present, appended otherwise. *)
Fixpoint map_set (m : list (K * V)) (k : K) (v : V) : list (K * V) :=
  match m with
  | [] => [(k, v)]
  | (k', v') :: r => if eqk k k' then (k', v) :: r else (k', v') :: map_set r k v
  end.

(** [m.delete(k)] *)
Definition map_delete (m : list (K * V)) (k : K) : list (K * V) :=
  filter (fun kv => negb (eqk k (fst kv))) m.

End AssocMap.

Arguments map_get {K V} eqk m k.
Arguments map_set {K V} eqk m k v.
Arguments map_delete {K V} eqk m k.

(* ------------------------------------------------------------------ *)
(** ** Data model of [websockets.ts] *)

(** A [WebSocket] object, compared by identity ([===]). *)
Definition socket := nat.

(** Location of a [Map] object on the heap. *)
Definition loc := nat.

Record Cursor := mkCursor {
  color : jsstr;
  x : jsval;
  y : jsval;
  lastSeen : N }.

Record Client := mkClient {
  ws : socket;
  userId : jsstr;
  cursor : option Cursor }.

(** The [data] of an outbound [Message], one constructor per shape the
    server builds. *)
Inductive MsgData :=
| DWelcome (uid : jsstr) (message : jsstr) (cursors : list (jsstr * Cursor))
| DNotice (uid : jsstr) (message : jsstr)
| DCursor (uid : jsstr) (c : Cursor)
| DChat (uid : jsstr) (message : jsval) (timestamp : N).

(** An outbound [Message], as passed to [sendToClient] (before
    [JSON.stringify]). *)
Record Message := mkMessage {
  type : jsstr;
  msg_userId : jsstr;
  data : MsgData }.

Definition cursor_map := list (jsstr * Cursor).

(** The server object together with the transport state it reads:
    [is_open w] is [w.readyState === WebSocket.OPEN], and [sent] is the
    log of every [ws.send] performed, oldest first. *)
Record world := mkWorld {
  clients : list (socket * Client);
  heap : loc -> cursor_map;
  cursors : loc;
  is_open : socket -> bool;
  sent : list (socket * Message) }.

(** Entropy and clock read during one event. [rnd_color] is
    [Math.floor(Math.random() * colors.length)], [rnd_id] is
    [Math.random().toString(36).substr(2, 9)]. *)
Record env := mkEnv {
  now : N;
  rnd_color : nat;
  rnd_id : jsstr }.

Definition env_wf (e : env) : Prop := rnd_color e < 10.

(* ------------------------------------------------------------------ *)
(** ** A state monad with exceptions *)

Inductive outcome (A : Type) :=
| Ok (a : A) (w : world)
| Throw (w : world).
Arguments Ok {A} a w.
Arguments Throw {A} w.

Definition M (A : Type) := world -> outcome A.

Definition ret {A} (a : A) : M A := fun w => Ok a w.

Definition bind {A B} (m : M A) (k : A -> M B) : M B :=
  fun w => match m w with
           | Ok a w' => k a w'
           | Throw w' => Throw w'
           end.

Notation "x <- m ;; k" := (bind m (fun x => k))
  (at level 61, m at next level, right associativity).
Notation "m ;;; k" := (bind m (fun _ => k))
  (at level 61, right associativity).

(** [throw new TypeError(...)] *)
Definition throw {A} : M A := fun w => Throw w.

(** [try { m } catch { console.error(...) }] *)
Definition try_catch (m : M unit) : M unit :=
  fun w => match m w with
           | Ok a w' => Ok a w'
           | Throw w' => Ok tt w'
           end.

Definition modify (f : world -> world) : M unit := fun w => Ok tt (f w).
Definition gets {A} (f : world -> A) : M A := fun w => Ok (f w) w.

Definition set_clients (cs : list (socket * Client)) (w : world) : world :=
  mkWorld cs (heap w) (cursors w) (is_open w) (sent w).

Definition heap_upd (l : loc) (m : cursor_map) (w : world) : world :=
  mkWorld (clients w) (fun l' => if Nat.eqb l' l then m else heap w l')
          (cursors w) (is_open w) (sent w).

Definition log_send (s : socket) (m : Message) (w : world) : world :=
  mkWorld (clients w) (heap w) (cursors w) (is_open w) (sent w ++ [(s, m)]).

(** The content of the server's own [cursors] Map. *)
Definition cursor_table (w : world) : cursor_map := heap w (cursors w).

(* ------------------------------------------------------------------ *)
(** ** JS primitives used by the server *)

(** Property read [v.k] on a JSON value: a [TypeError] on [null] and
    [undefined]; none of the keys read by the server ([type], [data], [x],
    [y], [message]) is inherited, so a missing own property is
    [undefined]. *)
Definition js_get (v : jsval) (k : jsstr) : M jsval :=
  match v with
  | JUndef | JNull => throw
  | JObj kvs => ret (match obj_get kvs k with Some v' => v' | None => JUndef end)
  | _ => ret JUndef
  end.

(** [v === "lit"] *)
Definition is_str (v : jsval) (s : jsstr) : bool :=
  match v with JStr s' => jsstr_eqb s' s | _ => false end.

(** Truthiness of a string ([""] is falsy). *)
Definition truthy_str (s : jsstr) : bool :=
  match s with [] => false | _ => true end.

(** [`${n}`] for a non-negative integer. *)
Definition dec (n : N) : jsstr := js (NilEmpty.string_of_uint (N.to_uint n)).

(* ------------------------------------------------------------------ *)
(** ** [class WebsocketServer] *)

Module WS.

Definition clients_get (s : socket) : M (option Client) :=
  gets (fun w => map_get Nat.eqb (clients w) s).

Definition clients_set (s : socket) (c : Client) : M unit :=
  modify (fun w => set_clients (map_set Nat.eqb (clients w) s c) w).

Definition clients_delete (s : socket) : M unit :=
  modify (fun w => set_clients (map_delete Nat.eqb (clients w) s) w).

Definition cursors_get (k : jsstr) : M (option Cursor) :=
  gets (fun w => map_get jsstr_eqb (cursor_table w) k).

Definition cursors_set (k : jsstr) (c : Cursor) : M unit :=
  modify (fun w => heap_upd (cursors w) (map_set jsstr_eqb (cursor_table w) k c) w).

Definition cursors_delete (k : jsstr) : M unit :=
  modify (fun w => heap_upd (cursors w) (map_delete jsstr_eqb (cursor_table w) k) w).

Definition palette : list jsstr :=
  map js ["#FF6B6B"; "#4ECDC4"; "#45B7D1"; "#96CEB4"; "#FFEAA7";
          "#DDA0DD"; "#98D8C8"; "#F7DC6F"; "#BB8FCE"; "#85C1E9"]%string.

(** [generateRandomColor]: [colors[Math.floor(Math.random() * colors.length)]]. *)
Definition generateRandomColor (e : env) : jsstr := nth (rnd_color e) palette [].

(** [sendToClient]: written only when the socket is OPEN. *)
Definition sendToClient (s : socket) (m : Message) : M unit :=
  o <- gets (fun w => is_open w s) ;;
  if o then modify (log_send s m) else ret tt.

Fixpoint for_each (l : list socket) (f : socket -> M unit) : M unit :=
  match l with
  | [] => ret tt
  | s :: r => f s ;;; for_each r f
  end.

(** [broadcastToOthers]: [this.clients.forEach] over the keys, skipping
    [senderWs]. *)
Definition broadcastToOthers (senderWs : socket) (m : Message) : M unit :=
  ks <- gets (fun w => map fst (clients w)) ;;
  for_each ks (fun s => if Nat.eqb s senderWs then ret tt else sendToClient s m).

(** [broadcastToAll] *)
Definition broadcastToAll (m : Message) : M unit :=
  ks <- gets (fun w => map fst (clients w)) ;;
  for_each ks (fun s => sendToClient s m).

(** [addClient(ws)]; returns the new [userId]. *)
Definition addClient (e : env) (s : socket) : M jsstr :=
  let uid := js "user_" ++ dec (now e) ++ js "_" ++ rnd_id e in
  clients_set s (mkClient s uid None) ;;;
  snap <- gets cursor_table ;;
  sendToClient s (mkMessage (js "user_joined") uid
                   (DWelcome uid (js "Connected successfully!") snap)) ;;;
  broadcastToOthers s (mkMessage (js "user_joined") uid
                         (DNotice uid (uid ++ js " joined the session"))) ;;;
  ret uid.

(** [removeClient(ws)] *)
Definition removeClient (s : socket) : M unit :=
  oc <- clients_get s ;;
  match oc with
  | None => ret tt
  | Some c =>
      clients_delete s ;;;
      cursors_delete (userId c) ;;;
      broadcastToOthers s (mkMessage (js "user_left") (userId c)
                             (DNotice (userId c) (userId c ++ js " left the session")))
  end.

(** [handleCursorUpdate(client, data)] *)
Definition handleCursorUpdate (e : env) (client : Client) (d : jsval) : M unit :=
  old <- cursors_get (userId client) ;;
  let col := match old with
             | Some c => if truthy_str (color c) then color c else generateRandomColor e
             | None => generateRandomColor e
             end in
  vx <- js_get d (js "x") ;;
  vy <- js_get d (js "y") ;;
  let cur := mkCursor col vx vy (now e) in
  cursors_set (userId client) cur ;;;
  clients_set (ws client) (mkClient (ws client) (userId client) (Some cur)) ;;;
  broadcastToOthers (ws client)
    (mkMessage (js "cursor_update") (userId client) (DCursor (userId client) cur)).

(** [handleChatMessage(client, data)]; [timestamp] is [new Date()]. *)
Definition handleChatMessage (e : env) (client : Client) (d : jsval) : M unit :=
  m <- js_get d (js "message") ;;
  broadcastToAll (mkMessage (js "chat_message") (userId client)
                    (DChat (userId client) m (now e))).

(** The message built when [JSON.parse] throws. *)
Definition fallback_message (client : Client) (message : jsstr) : jsval :=
  JObj [(js "type", JStr (js "chat_message"));
        (js "userId", JStr (userId client));
        (js "data", JObj [(js "message", JStr message)])].

(** [handleMessage(ws, message)] *)
Definition handleMessage (e : env) (s : socket) (message : jsstr) : M unit :=
  try_catch (
    oc <- clients_get s ;;
    match oc with
    | None => ret tt
    | Some client =>
        let parsed := match json_parse message with
                      | Some v => v
                      | None => fallback_message client message
                      end in
        t <- js_get parsed (js "type") ;;
        if is_str t (js "cursor_update") then
          d <- js_get parsed (js "data") ;; handleCursorUpdate e client d
        else if is_str t (js "chat_message") then
          d <- js_get parsed (js "data") ;; handleChatMessage e client d
        else ret tt
    end).

(** [getCursors()]: the reference held in [this.cursors]. *)
Definition getCursors : M loc := gets cursors.

(** [getClientCount()] *)
Definition getClientCount : M nat := gets (fun w => List.length (clients w)).

(** [new WebsocketServer()], its [cursors] Map allocated at [l]. *)
Definition init (l : loc) (open : socket -> bool) : world :=
  mkWorld [] (fun _ => []) l open [].

(** Methods of a JS [Map] invoked by a caller through a reference. *)
Definition ref_map_set (l : loc) (k : jsstr) (c : Cursor) : M unit :=
  modify (fun w => heap_upd l (map_set jsstr_eqb (heap w l) k c) w).

Definition ref_map_delete (l : loc) (k : jsstr) : M unit :=
  modify (fun w => heap_upd l (map_delete jsstr_eqb (heap w l) k) w).

Definition ref_map_clear (l : loc) : M unit :=
  modify (fun w => heap_upd l [] w).

End WS.

(** Final world of an event handler. *)
Definition exec {A} (m : M A) (w : world) : world :=
  match m w with Ok _ w' => w' | Throw w' => w' end.

(** Returned value of a method that does not throw. *)
Definition result {A} (m : M A) (w : world) : option A :=
  match m w with Ok a _ => Some a | Throw _ => None end.

(* ------------------------------------------------------------------ *)
(** ** Vocabulary for the statements *)

(** [v.k] when it does not throw. *)
Definition prop (v : jsval) (k : jsstr) : jsval :=
  match v with
  | JObj kvs => match obj_get kvs k with Some v' => v' | None => JUndef end
  | _ => JUndef
  end.

(** The value [handleMessage] dispatches on: the parsed JSON, or the
    synthesized chat message when [JSON.parse] throws. *)
Definition parsed_of (c : Client) (p : jsstr) : jsval :=
  match json_parse p with
  | Some v => v
  | None => WS.fallback_message c p
  end.

(** The [sent] log extended by [l]. *)
Definition add_sent (w : world) (l : list (socket * Message)) : world :=
  mkWorld (clients w) (heap w) (cursors w) (is_open w) (sent w ++ l).

(** One copy of [m] for each socket of [l], in order. *)
Definition fanout (l : list socket) (m : Message) : list (socket * Message) :=
  map (fun t => (t, m)) l.

(** Registered sockets whose [readyState] is OPEN, in [Map] order. *)
Definition live (w : world) : list socket :=
  filter (is_open w) (map fst (clients w)).

(** Same, without [s]. *)
Definition live_others (w : world) (s : socket) : list socket :=
  filter (fun t => negb (Nat.eqb t s) && is_open w t) (map fst (clients w)).

(** Identities held by registered connections. *)
Definition live_ids (w : world) : list jsstr := map (fun tc => userId (snd tc)) (clients w).

(** The identity [addClient] builds from [Date.now()] and the random suffix. *)
Definition user_id (n : N) (r : jsstr) : jsstr := js "user_" ++ dec n ++ js "_" ++ r.

(** The color [handleCursorUpdate] keeps or draws. *)
Definition next_color (e : env) (old : option Cursor) : jsstr :=
  match old with
  | Some c => if truthy_str (color c) then color c else WS.generateRandomColor e
  | None => WS.generateRandomColor e
  end.

(** Concrete worlds: a fresh server, then two sockets 1 and 2 registered
    (both OPEN). *)
Definition env1 : env := mkEnv 1700000000000 3 (js "k2j9x0a1q").
Definition env2 : env := mkEnv 1700000000042 7 (js "p0z8mm3ru").
Definition w_init : world := WS.init 0 (fun _ => true).
Definition w_one : world := exec (WS.addClient env1 1) w_init.
Definition w_two : world := exec (WS.addClient env2 2) w_one.

(** Inbound payloads used in the concrete statements. *)
Definition p_cursor_empty : jsstr := jq "{'type':'cursor_update','data':{}}".
Definition p_cursor_ok : jsstr :=
  jq "{'type':'cursor_update','userId':'user_0_forged','data':{'x':10,'y':20}}".
Definition p_cursor_ok2 : jsstr := jq "{'type':'cursor_update','data':{'x':11,'y':-3}}".
Definition p_chat_ok : jsstr :=
  jq "{'type':'chat_message','userId':'user_0_forged','data':{'message':'hi'}}".
Definition p_joined : jsstr := jq "{'type':'user_joined','userId':'x','data':{}}".
Definition p_xy_bare : jsstr := js "{x:10,y:20}".
Definition p_xy_json : jsstr := jq "{'x':10,'y':20}".

(** [w_two] after socket 1 moved its cursor. *)
Definition w_cur : world := exec (WS.handleMessage env1 1 p_cursor_ok) w_two.

(* ------------------------------------------------------------------ *)
(** ** [createServer] (src/unnamed/part_000): transport callbacks and
    [GET /status] *)

Module Server.

(** The callbacks [createServer] installs, each forwarding to the one
    [WebsocketServer]; [ReadyState] is the transport changing a socket's
    [readyState] on its own. *)
Inductive event :=
| Connection (e : env) (s : socket)
| WsMessage (e : env) (s : socket) (p : jsstr)
| WsClose (s : socket)
| WsError (s : socket)
| ReadyState (s : socket) (b : bool).

Definition set_open (s : socket) (b : bool) (w : world) : world :=
  mkWorld (clients w) (heap w) (cursors w)
          (fun t => if Nat.eqb t s then b else is_open w t) (sent w).

(** [wss.on("connection")] calls [addClient(ws)]; [ws.on("message")] calls
    [handleMessage(ws, message.toString())]; [ws.on("close")] and
    [ws.on("error")] both call [removeClient(ws)]. *)
Definition step (w : world) (ev : event) : world :=
  match ev with
  | Connection e s => exec (WS.addClient e s) w
  | WsMessage e s p => exec (WS.handleMessage e s p) w
  | WsClose s => exec (WS.removeClient s) w
  | WsError s => exec (WS.removeClient s) w
  | ReadyState s b => set_open s b w
  end.

Definition run (w : world) (evs : list event) : world := fold_left step evs w.

(** Body of [GET /status]: [{ ok: true, clients: getClientCount(),
    cursors: getCursors().size }]. *)
Record status := mkStatus {
  ok : bool;
  st_clients : nat;
  st_cursors : nat }.

Definition get_status : M status :=
  n <- WS.getClientCount ;;
  l <- WS.getCursors ;;
  gets (fun w => mkStatus true n (List.length (heap w l))).

(** What the transport and the runtime guarantee of an event: a
    [connection] brings a new [WebSocket] object, not a registered one,
    and [Math.floor(Math.random() * colors.length)] is below
    [colors.length]. *)
Definition event_ok (w : world) (ev : event) : Prop :=
  match ev with
  | Connection e s => map_get Nat.eqb (clients w) s = None /\ env_wf e
  | WsMessage e _ _ => env_wf e
  | _ => True
  end.

End Server.

(** Worlds the server can be in: the singleton just built, then any
    sequence of transport events. *)
Inductive reachable : world -> Prop :=
| reach_init l open : reachable (WS.init l open)
| reach_step w ev : reachable w -> Server.event_ok w ev -> reachable (Server.step w ev).

(** What every reachable world satisfies. *)
Record inv (w : world) : Prop := {
  inv_keys : NoDup (map fst (clients w));
  inv_ws : forall s c, In (s, c) (clients w) -> ws c = s;
  inv_tkeys : NoDup (map fst (cursor_table w));
  inv_tlive : forall k, In k (map fst (cursor_table w)) -> In k (live_ids w);
  inv_color : forall k cur, In (k, cur) (cursor_table w) -> In (color cur) WS.palette }.

(* ------------------------------------------------------------------ *)
(** ** The client's [throttle] (apps/admin/src/app/index.tsx)

    [throttle(func, delay)] returns a closure over [timeoutId] and
    [lastExecTime]; the page wraps its cursor sender in it with
    [delay = 16].  The closure's state is modelled together with the
    runtime's timer queue ([setTimeout] / [clearTimeout]) and the log of
    [func] invocations; [Date.now()] is the time given with each event. *)

Module Throttle.

Section Throttle.
Variable A : Type.
Variable delay : Z.

Record state := mkState {
  timeoutId : option nat;
  lastExecTime : Z;
  timers : list (nat * Z * A);
  next_id : nat;
  calls : list A }.

(** [clearTimeout(i)]: drops timer [i] if it is still queued. *)
Definition clearTimeout (i : nat) (ts : list (nat * Z * A)) : list (nat * Z * A) :=
  filter (fun t => negb (Nat.eqb (fst (fst t)) i)) ts.

(** [let timeoutId = null; let lastExecTime = 0;] *)
Definition init : state := mkState None 0%Z [] 1 [].

(** One call of the returned closure at time [currentTime]. *)
Definition throttle (currentTime : Z) (args : A) (st : state) : state :=
  if Z.ltb delay (currentTime - lastExecTime st)%Z then
    mkState (timeoutId st) currentTime (timers st) (next_id st) (calls st ++ [args])
  else
    let ts := match timeoutId st with
              | Some i => clearTimeout i (timers st)
              | None => timers st
              end in
    mkState (Some (next_id st)) (lastExecTime st)
      (ts ++ [(next_id st, (currentTime + (delay - (currentTime - lastExecTime st)))%Z, args)])
      (S (next_id st)) (calls st).

(** The runtime running the callback of timer [i] at time [now], which is
    no earlier than the timer's due time. *)
Definition fire (i : nat) (now : Z) (st : state) : option state :=
  match find (fun t => Nat.eqb (fst (fst t)) i) (timers st) with
  | Some (_, due, args) =>
      if Z.leb due now
      then Some (mkState (timeoutId st) now (clearTimeout i (timers st)) (next_id st)
                         (calls st ++ [args]))
      else None
  | None => None
  end.

Inductive tstep : state -> state -> Prop :=
| t_call now a st : tstep st (throttle now a st)
| t_fire i now st st' : fire i now st = Some st' -> tstep st st'.

Inductive reach : state -> Prop :=
| r_init : reach init
| r_step st st' : reach st -> tstep st st' -> reach st'.

End Throttle.

Arguments timeoutId {A}.
Arguments lastExecTime {A}.
Arguments timers {A}.
Arguments next_id {A}.
Arguments calls {A}.
Arguments mkState {A}.
Arguments clearTimeout {A}.
Arguments init {A}.
Arguments throttle {A}.
Arguments fire {A}.
Arguments tstep {A}.
Arguments reach {A}.
Arguments t_call {A} delay now a st.
Arguments t_fire {A} delay i now st st'.
Arguments r_init {A} delay.
Arguments r_step {A} delay st st'.

End Throttle.

(* ------------------------------------------------------------------ *)
(** ** The client's chat sender (apps/admin/src/app/index.tsx)

    [sendMessage] sends [JSON.stringify({ type: "chat_message", data:
    { message } })] when the socket is OPEN and [message.trim()] is not
    empty, then clears the input. *)

Module Admin.




(** A lowercase hexadecimal digit. *)
Definition hex_digit (n : N) : N := if N.ltb n 10 then 48 + n else 87 + n.

(** UnicodeEscape(C): [\u] and four lowercase hex digits. *)
Definition unicode_escape (c : N) : jsstr :=
  [92; 117; hex_digit (c / 4096 mod 16); hex_digit (c / 256 mod 16);
   hex_digit (c / 16 mod 16); hex_digit (c mod 16)]%N.

Definition is_lead (c : N) : bool := N.leb 0xD800 c && N.leb c 0xDBFF.
Definition is_trail (c : N) : bool := N.leb 0xDC00 c && N.leb c 0xDFFF.

(** QuoteJSONString on one code point that is not a surrogate pair. *)
Definition quote_cp (c : N) : jsstr :=
  if N.eqb c 8 then [92; 98]%N
  else if N.eqb c 9 then [92; 116]%N
  else if N.eqb c 10 then [92; 110]%N
  else if N.eqb c 12 then [92; 102]%N
  else if N.eqb c 13 then [92; 114]%N
  else if N.eqb c 34 then [92; 34]%N
  else if N.eqb c 92 then [92; 92]%N
  else if N.ltb c 32 || is_lead c || is_trail c then unicode_escape c
  else [c].

(** QuoteJSONString's loop over StringToCodePoints: a lead surrogate
    followed by a trail surrogate is one code point, copied as is; a lone
    surrogate is escaped. *)
Fixpoint quote_units (s : jsstr) : jsstr :=
  match s with
  | [] => []
  | c :: r =>
      if is_lead c then
        match r with
        | d :: r' => if is_trail d then c :: d :: quote_units r' else quote_cp c ++ quote_units r
        | [] => quote_cp c
        end
      else quote_cp c ++ quote_units r
  end.

(** QuoteJSONString(s) *)
Definition quote (s : jsstr) : jsstr := [34%N] ++ quote_units s ++ [34%N].

(** The object literal [{ type: "chat_message", data: { message } }]. *)
Definition chat_obj (message : jsstr) : jsval :=
  JObj [(js "type", JStr (js "chat_message"));
        (js "data", JObj [(js "message", JStr message)])].

(** [JSON.stringify] of [chat_obj message]: SerializeJSONObject over the
    keys in creation order, no indentation. *)
Definition chat_frame (message : jsstr) : jsstr :=
  js "{" ++ quote (js "type") ++ js ":" ++ quote (js "chat_message") ++ js "," ++
  quote (js "data") ++ js ":" ++ js "{" ++ quote (js "message") ++ js ":" ++
  quote message ++ js "}" ++ js "}".


End Admin.

(* ------------------------------------------------------------------ *)
(** ** General lemmas *)

Example json_parse_obj :
  json_parse (jq "{'x': 10, 'y': -2.5e1}") =
  Some (JObj [(js "x", JNum 10 0); (js "y", JNum (-25) 0)]).
Proof. vm_compute. reflexivity. Qed.

Lemma add_sent_nil w : add_sent w [] = w.
Proof. destruct w; unfold add_sent; simpl; rewrite app_nil_r; reflexivity. Qed.

Lemma add_sent_app w a b : add_sent (add_sent w a) b = add_sent w (a ++ b).
Proof. destruct w; unfold add_sent; simpl; rewrite app_assoc; reflexivity. Qed.

Lemma for_each_others (q : socket -> bool) m l w :
  WS.for_each l (fun s => if q s then ret tt else WS.sendToClient s m) w
  = Ok tt (add_sent w (fanout (filter (fun s => negb (q s) && is_open w s) l) m)).
Proof.
  revert w; induction l as [|s l IH]; intros w; simpl.
  - rewrite add_sent_nil; reflexivity.
  - unfold bind at 1. destruct (q s) eqn:Hq; simpl.
    + apply IH.
    + unfold WS.sendToClient, bind, gets, modify, ret.
      destruct (is_open w s) eqn:Ho; simpl.
      * change (log_send s m w) with (add_sent w [(s, m)]).
        rewrite IH, add_sent_app. reflexivity.
      * apply IH.
Qed.

Lemma for_each_all m l w :
  WS.for_each l (fun s => WS.sendToClient s m) w
  = Ok tt (add_sent w (fanout (filter (is_open w) l) m)).
Proof.
  revert w; induction l as [|s l IH]; intros w; simpl.
  - rewrite add_sent_nil; reflexivity.
  - unfold bind at 1, WS.sendToClient, bind, gets, modify, ret.
    destruct (is_open w s) eqn:Ho; simpl.
    + change (log_send s m w) with (add_sent w [(s, m)]).
      rewrite IH, add_sent_app. reflexivity.
    + apply IH.
Qed.

Lemma broadcastToOthers_eq s m w :
  WS.broadcastToOthers s m w = Ok tt (add_sent w (fanout (live_others w s) m)).
Proof. unfold WS.broadcastToOthers, bind, gets. apply for_each_others. Qed.

Lemma broadcastToAll_eq m w :
  WS.broadcastToAll m w = Ok tt (add_sent w (fanout (live w) m)).
Proof. unfold WS.broadcastToAll, bind, gets. apply for_each_all. Qed.

Lemma js_get_prop v k w :
  v <> JUndef -> v <> JNull -> js_get v k w = Ok (prop v k) w.
Proof. destruct v; intros H1 H2; try congruence; reflexivity. Qed.

Lemma prop_is_str_obj v k s : is_str (prop v k) s = true -> v <> JUndef /\ v <> JNull.
Proof. destruct v; simpl; try discriminate; split; discriminate. Qed.

(** *** [handleMessage], case by case *)

Lemma handleMessage_unregistered e s p w :
  map_get Nat.eqb (clients w) s = None -> WS.handleMessage e s p w = Ok tt w.
Proof.
  intros H. unfold WS.handleMessage, try_catch, bind, WS.clients_get, gets.
  rewrite H. reflexivity.
Qed.

(** The dispatched value reaches [js_get parsed "type"]. *)
Lemma handleMessage_registered e s p w c :
  map_get Nat.eqb (clients w) s = Some c ->
  WS.handleMessage e s p w =
  try_catch (
    t <- js_get (parsed_of c p) (js "type") ;;
    if is_str t (js "cursor_update") then
      d <- js_get (parsed_of c p) (js "data") ;; WS.handleCursorUpdate e c d
    else if is_str t (js "chat_message") then
      d <- js_get (parsed_of c p) (js "data") ;; WS.handleChatMessage e c d
    else ret tt) w.
Proof.
  intros H. unfold WS.handleMessage, try_catch at 1, bind at 1, WS.clients_get, gets.
  rewrite H. reflexivity.
Qed.

Lemma handleMessage_cursor e w s c p :
  map_get Nat.eqb (clients w) s = Some c ->
  is_str (prop (parsed_of c p) (js "type")) (js "cursor_update") = true ->
  prop (parsed_of c p) (js "data") <> JUndef ->
  prop (parsed_of c p) (js "data") <> JNull ->
  let d := prop (parsed_of c p) (js "data") in
  let cur := mkCursor (next_color e (map_get jsstr_eqb (cursor_table w) (userId c)))
                      (prop d (js "x")) (prop d (js "y")) (now e) in
  let w1 := heap_upd (cursors w) (map_set jsstr_eqb (cursor_table w) (userId c) cur) w in
  let w2 := set_clients (map_set Nat.eqb (clients w1) (ws c)
                           (mkClient (ws c) (userId c) (Some cur))) w1 in
  WS.handleMessage e s p w =
  Ok tt (add_sent w2 (fanout (live_others w2 (ws c))
           (mkMessage (js "cursor_update") (userId c) (DCursor (userId c) cur)))).
Proof.
  intros H Ht Hd1 Hd2 d cur w1 w2.
  rewrite (handleMessage_registered e s p w c H).
  destruct (prop_is_str_obj _ _ _ Ht) as [Hv1 Hv2].
  unfold try_catch, bind. rewrite (js_get_prop _ _ _ Hv1 Hv2), Ht.
  rewrite (js_get_prop _ _ _ Hv1 Hv2).
  unfold WS.handleCursorUpdate, bind, WS.cursors_get, gets.
  fold d.
  rewrite (js_get_prop _ _ _ Hd1 Hd2), (js_get_prop _ _ _ Hd1 Hd2).
  unfold WS.cursors_set, WS.clients_set, modify.
  rewrite broadcastToOthers_eq. reflexivity.
Qed.

Lemma handleMessage_chat e w s c p :
  map_get Nat.eqb (clients w) s = Some c ->
  is_str (prop (parsed_of c p) (js "type")) (js "chat_message") = true ->
  prop (parsed_of c p) (js "data") <> JUndef ->
  prop (parsed_of c p) (js "data") <> JNull ->
  WS.handleMessage e s p w =
  Ok tt (add_sent w (fanout (live w)
           (mkMessage (js "chat_message") (userId c)
              (DChat (userId c) (prop (prop (parsed_of c p) (js "data")) (js "message")) (now e))))).
Proof.
  intros H Ht Hd1 Hd2.
  rewrite (handleMessage_registered e s p w c H).
  destruct (prop_is_str_obj _ _ _ Ht) as [Hv1 Hv2].
  assert (Hc : is_str (prop (parsed_of c p) (js "type")) (js "cursor_update") = false).
  { destruct (prop (parsed_of c p) (js "type")); simpl in *; try discriminate.
    destruct (jsstr_eqb s0 (js "cursor_update")) eqn:E; [|reflexivity].
    exfalso. revert Ht E. clear. revert s0.
    intros s0; unfold js; simpl.
    destruct s0 as [|a s0]; simpl; [discriminate|].
    destruct (N.eqb a 99) eqn:Ea; simpl; [|discriminate].
    destruct s0 as [|b s0]; simpl; [discriminate|].
    destruct (N.eqb b 104) eqn:Eb; destruct (N.eqb b 117) eqn:Eb'; simpl; try discriminate.
    apply N.eqb_eq in Eb; apply N.eqb_eq in Eb'; subst; discriminate. }
  unfold try_catch, bind. rewrite (js_get_prop _ _ _ Hv1 Hv2), Hc, Ht.
  rewrite (js_get_prop _ _ _ Hv1 Hv2).
  unfold WS.handleChatMessage, bind.
  rewrite (js_get_prop _ _ _ Hd1 Hd2), broadcastToAll_eq. reflexivity.
Qed.

Lemma handleMessage_other e w s p :
  (forall c, map_get Nat.eqb (clients w) s = Some c ->
     is_str (prop (parsed_of c p) (js "type")) (js "cursor_update") = false /\
     is_str (prop (parsed_of c p) (js "type")) (js "chat_message") = false) ->
  WS.handleMessage e s p w = Ok tt w.
Proof.
  intros H. destruct (map_get Nat.eqb (clients w) s) as [c|] eqn:Hc.
  - destruct (H c eq_refl) as [H1 H2].
    rewrite (handleMessage_registered e s p w c Hc).
    unfold try_catch, bind.
    destruct (parsed_of c p) eqn:Hv; simpl in *; try reflexivity;
      rewrite H1, H2; reflexivity.
  - apply handleMessage_unregistered; exact Hc.
Qed.

(** Property reads on a cursor_update whose [data] is missing or null
    throw inside [handleCursorUpdate] before any write. *)
Lemma handleMessage_cursor_nodata e w s c p :
  map_get Nat.eqb (clients w) s = Some c ->
  is_str (prop (parsed_of c p) (js "type")) (js "cursor_update") = true ->
  prop (parsed_of c p) (js "data") = JUndef \/ prop (parsed_of c p) (js "data") = JNull ->
  WS.handleMessage e s p w = Ok tt w.
Proof.
  intros H Ht Hd.
  rewrite (handleMessage_registered e s p w c H).
  destruct (prop_is_str_obj _ _ _ Ht) as [Hv1 Hv2].
  unfold try_catch, bind. rewrite (js_get_prop _ _ _ Hv1 Hv2), Ht.
  rewrite (js_get_prop _ _ _ Hv1 Hv2).
  unfold WS.handleCursorUpdate, bind, WS.cursors_get, gets.
  destruct Hd as [Hd|Hd]; rewrite Hd; reflexivity.
Qed.

Lemma map_get_set {K V} (eqk : K -> K -> bool) m k (v : V) :
  eqk k k = true -> map_get eqk (map_set eqk m k v) k = Some v.
Proof.
  intros Hk. induction m as [|[k' v'] m IH]; simpl.
  - rewrite Hk; reflexivity.
  - destruct (eqk k k') eqn:E; simpl; rewrite E; [reflexivity | exact IH].
Qed.

Lemma map_get_delete {K V} (eqk : K -> K -> bool) (m : list (K * V)) k :
  map_get eqk (map_delete eqk m k) k = None.
Proof.
  induction m as [|[k' v'] m IH]; simpl; [reflexivity|].
  unfold map_delete in *; simpl.
  destruct (eqk k k') eqn:E; simpl; [exact IH|]. rewrite E; exact IH.
Qed.

Lemma map_fst_set_present {K V} (eqk : K -> K -> bool) m k (v v' : V) :
  map_get eqk m k = Some v -> map fst (map_set eqk m k v') = map fst m.
Proof.
  induction m as [|[k1 v1] m IH]; simpl; [discriminate|].
  destruct (eqk k k1); simpl; [reflexivity|].
  intros H; rewrite (IH H); reflexivity.
Qed.

Lemma jsstr_eqb_refl a : jsstr_eqb a a = true.
Proof. induction a; simpl; [reflexivity|]. rewrite N.eqb_refl; exact IHa. Qed.

Lemma jsstr_eqb_eq a b : jsstr_eqb a b = true -> a = b.
Proof.
  revert b; induction a as [|x a IH]; intros [|y b]; simpl; try discriminate; [reflexivity|].
  intros H. apply andb_true_iff in H as [H1 H2].
  apply N.eqb_eq in H1. rewrite H1, (IH b H2). reflexivity.
Qed.

Lemma cursor_table_heap_upd w m :
  cursor_table (heap_upd (cursors w) m w) = m.
Proof. unfold cursor_table, heap_upd; simpl. rewrite Nat.eqb_refl. reflexivity. Qed.

Lemma live_others_absent w s :
  ~ In s (map fst (clients w)) -> live_others w s = live w.
Proof.
  unfold live_others, live. intros H. induction (map fst (clients w)) as [|t l IH]; simpl; [reflexivity|].
  destruct (Nat.eqb t s) eqn:E.
  - apply Nat.eqb_eq in E; subst. exfalso; apply H; left; reflexivity.
  - simpl. rewrite IH; [reflexivity|]. intros Hi; apply H; right; exact Hi.
Qed.

Lemma map_get_none_not_in (m : list (socket * Client)) s :
  map_get Nat.eqb m s = None -> ~ In s (map fst m).
Proof.
  induction m as [|[k v] m IH]; simpl; [auto|].
  destruct (Nat.eqb s k) eqn:E; [discriminate|].
  intros H [Hk|Hi]; [subst; rewrite Nat.eqb_refl in E; discriminate | exact (IH H Hi)].
Qed.

Lemma removeClient_present h c w :
  map_get Nat.eqb (clients w) h = Some c ->
  let w1 := set_clients (map_delete Nat.eqb (clients w) h) w in
  let w2 := heap_upd (cursors w1) (map_delete jsstr_eqb (cursor_table w1) (userId c)) w1 in
  WS.removeClient h w =
  Ok tt (add_sent w2 (fanout (live_others w2 h)
           (mkMessage (js "user_left") (userId c)
              (DNotice (userId c) (userId c ++ js " left the session"))))).
Proof.
  intros H w1 w2. unfold WS.removeClient, bind, WS.clients_get, gets.
  rewrite H. unfold WS.clients_delete, WS.cursors_delete, modify.
  rewrite broadcastToOthers_eq. reflexivity.
Qed.

Lemma removeClient_absent h w :
  map_get Nat.eqb (clients w) h = None -> WS.removeClient h w = Ok tt w.
Proof. intros H. unfold WS.removeClient, bind, WS.clients_get, gets. rewrite H. reflexivity. Qed.

(* ------------------------------------------------------------------ *)
(** ** The relay's properties *)

(** C10: [handleMessage] on a socket with no registered client returns at
    once: membership, cursors and the send log are all unchanged, whatever
    the payload. *)
Theorem handleMessage_unregistered_noop e s p w :
  map_get Nat.eqb (clients w) s = None -> exec (WS.handleMessage e s p) w = w.
Proof.
  intros H. unfold exec. rewrite (handleMessage_unregistered e s p w H). reflexivity.
Qed.

Lemma handleMessage_unregistered_noop_witness :
  map_get Nat.eqb (clients w_two) 3 = None /\
  exec (WS.handleMessage env1 3 p_cursor_ok) w_two = w_two.
Proof.
  split; [vm_compute; reflexivity|].
  apply handleMessage_unregistered_noop. vm_compute. reflexivity.
Defined.

(** C9: an inbound payload that parses to a value whose [type] tag is
    neither ["cursor_update"] nor ["chat_message"] (so [user_joined],
    [user_left], any other string, or no tag at all) reaches the
    [default] branch of the switch: nothing changes and nothing is sent. *)
Theorem handleMessage_drops_other_types e s p v w :
  json_parse p = Some v ->
  is_str (prop v (js "type")) (js "cursor_update") = false ->
  is_str (prop v (js "type")) (js "chat_message") = false ->
  exec (WS.handleMessage e s p) w = w.
Proof.
  intros Hp H1 H2. unfold exec.
  rewrite (handleMessage_other e w s p); [reflexivity|].
  intros c _. unfold parsed_of. rewrite Hp. split; assumption.
Qed.

Lemma handleMessage_drops_other_types_witness :
  exec (WS.handleMessage env1 1 p_joined) w_two = w_two.
Proof.
  apply (handleMessage_drops_other_types env1 1 p_joined
           (JObj [(js "type", JStr (js "user_joined")); (js "userId", JStr (js "x"));
                  (js "data", JObj [])]) w_two);
    vm_compute; reflexivity.
Defined.

(** C5: when [JSON.parse] throws, the payload becomes a chat message whose
    text is the raw payload, attributed to the sender's registered
    [userId]; it is sent to every registered OPEN socket (the sender
    included) and nothing else changes. *)
Theorem handleMessage_unparsable_is_chat e s p c w :
  map_get Nat.eqb (clients w) s = Some c ->
  json_parse p = None ->
  exec (WS.handleMessage e s p) w =
  add_sent w (fanout (live w)
    (mkMessage (js "chat_message") (userId c) (DChat (userId c) (JStr p) (now e)))).
Proof.
  intros H Hp.
  assert (Hv : parsed_of c p = WS.fallback_message c p) by (unfold parsed_of; rewrite Hp; reflexivity).
  unfold exec. rewrite (handleMessage_chat e w s c p H); rewrite Hv; try reflexivity; discriminate.
Qed.

Lemma handleMessage_unparsable_is_chat_witness :
  exec (WS.handleMessage env2 2 (js "hello there")) w_two =
  add_sent w_two (fanout [1; 2]
    (mkMessage (js "chat_message") (user_id (now env2) (rnd_id env2))
       (DChat (user_id (now env2) (rnd_id env2)) (JStr (js "hello there")) (now env2)))).
Proof.
  apply (handleMessage_unparsable_is_chat env2 2 (js "hello there")
           (mkClient 2 (user_id (now env2) (rnd_id env2)) None) w_two);
    vm_compute; reflexivity.
Defined.

(** C3 (as stated, refuted): the payload [{x:10,y:20}] is not valid JSON,
    its keys being unquoted. *)
Lemma xy_payload_not_json : ~ exists v, json_parse p_xy_bare = Some v.
Proof. intros [v Hv]. vm_compute in Hv. discriminate. Qed.

(** C3 (amended): [{x:10,y:20}] makes [JSON.parse] throw, so it is
    relayed as a chat message whose text is the raw payload, to every
    registered OPEN socket including the sender; the valid JSON
    [{"x":10,"y":20}], which has no [type] field, is dropped. *)
Theorem handleMessage_bare_xy_is_chat e s c w :
  map_get Nat.eqb (clients w) s = Some c ->
  json_parse p_xy_bare = None /\
  exec (WS.handleMessage e s p_xy_bare) w =
  add_sent w (fanout (live w)
    (mkMessage (js "chat_message") (userId c) (DChat (userId c) (JStr p_xy_bare) (now e)))) /\
  exec (WS.handleMessage e s p_xy_json) w = w.
Proof.
  intros H.
  assert (Hp : json_parse p_xy_bare = None) by (vm_compute; reflexivity).
  split; [exact Hp|]. split.
  - exact (handleMessage_unparsable_is_chat e s p_xy_bare c w H Hp).
  - apply (handleMessage_drops_other_types e s p_xy_json
             (JObj [(js "x", JNum 10 0); (js "y", JNum 20 0)]));
      vm_compute; reflexivity.
Qed.

Lemma handleMessage_bare_xy_is_chat_witness :
  exec (WS.handleMessage env1 1 p_xy_bare) w_two =
  add_sent w_two (fanout [1; 2]
    (mkMessage (js "chat_message") (user_id (now env1) (rnd_id env1))
       (DChat (user_id (now env1) (rnd_id env1)) (JStr p_xy_bare) (now env1)))).
Proof.
  apply (handleMessage_bare_xy_is_chat env1 1
           (mkClient 1 (user_id (now env1) (rnd_id env1)) None) w_two).
  vm_compute. reflexivity.
Defined.

(** C4: for a registered sender [s] (its [Client.ws] is [s]) whose
    payload parses with a non-null [data]: a [cursor_update] is sent to
    every registered OPEN socket other than [s] and never to [s]; a
    [chat_message] is sent to every registered OPEN socket, [s] included.
    Both carry the sender's registered [userId], whatever [userId] field
    the payload [v] has. *)
Theorem relay_recipients_and_sender_id e s c p v w :
  map_get Nat.eqb (clients w) s = Some c ->
  ws c = s ->
  json_parse p = Some v ->
  prop v (js "data") <> JUndef ->
  prop v (js "data") <> JNull ->
  (is_str (prop v (js "type")) (js "cursor_update") = true ->
     exists cur, sent (exec (WS.handleMessage e s p) w) =
       sent w ++ fanout (live_others w s)
         (mkMessage (js "cursor_update") (userId c) (DCursor (userId c) cur))) /\
  (is_str (prop v (js "type")) (js "chat_message") = true ->
     sent (exec (WS.handleMessage e s p) w) =
       sent w ++ fanout (live w)
         (mkMessage (js "chat_message") (userId c)
            (DChat (userId c) (prop (prop v (js "data")) (js "message")) (now e)))).
Proof.
  intros H Hws Hp Hd1 Hd2.
  assert (Hv : parsed_of c p = v) by (unfold parsed_of; rewrite Hp; reflexivity).
  split; intros Ht; rewrite <- Hv in Ht, Hd1, Hd2.
  - unfold exec. rewrite (handleMessage_cursor e w s c p H Ht Hd1 Hd2).
    eexists. simpl. f_equal. rewrite Hws. unfold live_others; simpl.
    rewrite (map_fst_set_present Nat.eqb (clients w) s c); [|exact H].
    rewrite Hv. reflexivity.
  - unfold exec. rewrite (handleMessage_chat e w s c p H Ht Hd1 Hd2).
    rewrite Hv. reflexivity.
Qed.

Lemma relay_recipients_and_sender_id_witness :
  (is_str (prop (JObj [(js "type", JStr (js "cursor_update"));
                      (js "userId", JStr (js "user_0_forged"));
                      (js "data", JObj [(js "x", JNum 10 0); (js "y", JNum 20 0)])])
              (js "type")) (js "cursor_update") = true ->
   exists cur, sent (exec (WS.handleMessage env1 1 p_cursor_ok) w_two) =
     sent w_two ++ fanout (live_others w_two 1)
       (mkMessage (js "cursor_update") (user_id (now env1) (rnd_id env1))
          (DCursor (user_id (now env1) (rnd_id env1)) cur))) /\
  (is_str (prop (JObj [(js "type", JStr (js "cursor_update"));
                      (js "userId", JStr (js "user_0_forged"));
                      (js "data", JObj [(js "x", JNum 10 0); (js "y", JNum 20 0)])])
              (js "type")) (js "chat_message") = true ->
   sent (exec (WS.handleMessage env1 1 p_cursor_ok) w_two) =
     sent w_two ++ fanout (live w_two)
       (mkMessage (js "chat_message") (user_id (now env1) (rnd_id env1))
          (DChat (user_id (now env1) (rnd_id env1))
             (prop (prop (JObj [(js "type", JStr (js "cursor_update"));
                      (js "userId", JStr (js "user_0_forged"));
                      (js "data", JObj [(js "x", JNum 10 0); (js "y", JNum 20 0)])])
                      (js "data")) (js "message")) (now env1)))).
Proof.
  apply (relay_recipients_and_sender_id env1 1
           (mkClient 1 (user_id (now env1) (rnd_id env1)) None) p_cursor_ok);
    vm_compute; first [reflexivity | discriminate].
Defined.

(** C6: the first [removeClient(h)] of a registered socket deletes its
    entry and its identity's cursor (the snapshot no longer has that
    identity) and sends a [user_left] notice to every remaining registered
    OPEN socket; a second [removeClient(h)] changes nothing at all. *)
Theorem removeClient_then_idempotent h c w :
  map_get Nat.eqb (clients w) h = Some c ->
  let w' := exec (WS.removeClient h) w in
  clients w' = map_delete Nat.eqb (clients w) h /\
  cursor_table w' = map_delete jsstr_eqb (cursor_table w) (userId c) /\
  map_get jsstr_eqb (cursor_table w') (userId c) = None /\
  sent w' = sent w ++ fanout (live w')
              (mkMessage (js "user_left") (userId c)
                 (DNotice (userId c) (userId c ++ js " left the session"))) /\
  exec (WS.removeClient h) w' = w'.
Proof.
  intros H w'.
  assert (Hc : clients w' = map_delete Nat.eqb (clients w) h)
    by (unfold w', exec; rewrite (removeClient_present h c w H); reflexivity).
  assert (Ht : cursor_table w' = map_delete jsstr_eqb (cursor_table w) (userId c)).
  { unfold w', exec; rewrite (removeClient_present h c w H).
    unfold add_sent, cursor_table; simpl. rewrite Nat.eqb_refl. reflexivity. }
  assert (Hg : map_get Nat.eqb (clients w') h = None)
    by (rewrite Hc; apply map_get_delete).
  split; [exact Hc|]. split; [exact Ht|]. split.
  { rewrite Ht. apply map_get_delete. }
  split.
  - unfold w', exec. rewrite (removeClient_present h c w H).
    set (w2 := heap_upd _ _ _).
    change (live (add_sent w2 ?l)) with (live w2).
    change (sent (add_sent w2 ?l)) with (sent w2 ++ l).
    change (sent w2) with (sent w).
    f_equal. f_equal. apply live_others_absent. simpl.
    apply map_get_none_not_in. apply map_get_delete.
  - unfold exec at 1. rewrite (removeClient_absent h w' Hg). reflexivity.
Qed.

Lemma removeClient_then_idempotent_witness :
  let w' := exec (WS.removeClient 1) w_cur in
  clients w' = map_delete Nat.eqb (clients w_cur) 1 /\
  cursor_table w' = map_delete jsstr_eqb (cursor_table w_cur) (user_id (now env1) (rnd_id env1)) /\
  map_get jsstr_eqb (cursor_table w') (user_id (now env1) (rnd_id env1)) = None /\
  sent w' = sent w_cur ++ fanout (live w')
              (mkMessage (js "user_left") (user_id (now env1) (rnd_id env1))
                 (DNotice (user_id (now env1) (rnd_id env1))
                    (user_id (now env1) (rnd_id env1) ++ js " left the session"))) /\
  exec (WS.removeClient 1) w' = w'.
Proof.
  apply (removeClient_then_idempotent 1
           (mkClient 1 (user_id (now env1) (rnd_id env1))
              (Some (mkCursor (WS.generateRandomColor env1) (JNum 10 0) (JNum 20 0) (now env1))))
           w_cur).
  vm_compute. reflexivity.
Defined.

Lemma handleMessage_cursor_effects e w s c p :
  map_get Nat.eqb (clients w) s = Some c ->
  ws c = s ->
  is_str (prop (parsed_of c p) (js "type")) (js "cursor_update") = true ->
  prop (parsed_of c p) (js "data") <> JUndef ->
  prop (parsed_of c p) (js "data") <> JNull ->
  let d := prop (parsed_of c p) (js "data") in
  let cur := mkCursor (next_color e (map_get jsstr_eqb (cursor_table w) (userId c)))
                      (prop d (js "x")) (prop d (js "y")) (now e) in
  let w' := exec (WS.handleMessage e s p) w in
  cursor_table w' = map_set jsstr_eqb (cursor_table w) (userId c) cur /\
  clients w' = map_set Nat.eqb (clients w) s (mkClient s (userId c) (Some cur)) /\
  sent w' = sent w ++ fanout (live_others w s)
              (mkMessage (js "cursor_update") (userId c) (DCursor (userId c) cur)).
Proof.
  intros H Hws Ht Hd1 Hd2 d cur w'.
  unfold w', exec. rewrite (handleMessage_cursor e w s c p H Ht Hd1 Hd2).
  fold d. fold cur. rewrite Hws.
  split; [|split].
  - unfold cursor_table; simpl. rewrite Nat.eqb_refl. reflexivity.
  - reflexivity.
  - simpl. f_equal. unfold live_others; simpl.
    rewrite (map_fst_set_present Nat.eqb (clients w) s c); [reflexivity|exact H].
Qed.

Lemma palette_truthy col : In col WS.palette -> truthy_str col = true.
Proof. simpl. intros Hc; repeat (destruct Hc as [<-|Hc]; [reflexivity|]); destruct Hc. Qed.

Lemma generateRandomColor_in e : env_wf e -> In (WS.generateRandomColor e) WS.palette.
Proof. intros He. unfold WS.generateRandomColor. apply nth_In. exact He. Qed.

Lemma parsed_of_userId c c' p : userId c = userId c' -> parsed_of c p = parsed_of c' p.
Proof. intros H. unfold parsed_of, WS.fallback_message. rewrite H. reflexivity. Qed.

(** C1 (as stated, refuted): a [cursor_update] whose [data] has neither
    [x] nor [y] is not dropped: the sender's cursor is stored with
    [undefined] coordinates and relayed to the other socket. *)
Lemma cursor_update_without_xy_is_relayed :
  let w' := exec (WS.handleMessage env1 1 p_cursor_empty) w_two in
  cursor_table w' <> cursor_table w_two /\
  sent w' <> sent w_two /\
  map_get jsstr_eqb (cursor_table w') (user_id (now env1) (rnd_id env1)) =
    Some (mkCursor (WS.generateRandomColor env1) JUndef JUndef (now env1)).
Proof.
  vm_compute. split; [discriminate|]. split; [|reflexivity].
  intros H. apply (f_equal (@List.length _)) in H. discriminate.
Qed.

(** C1 (amended): [handleCursorUpdate] does not validate [x] and [y].
    When [data] is missing or [null], reading [data.x] throws and the
    outer catch drops the message with no effect; otherwise the cursor is
    stored with [data.x] and [data.y] as they are (possibly [undefined] or
    not numbers) and a [cursor_update] goes to every other registered OPEN
    socket. *)
Theorem cursor_update_unvalidated e s c p w :
  map_get Nat.eqb (clients w) s = Some c ->
  ws c = s ->
  is_str (prop (parsed_of c p) (js "type")) (js "cursor_update") = true ->
  let d := prop (parsed_of c p) (js "data") in
  ((d = JUndef \/ d = JNull) -> exec (WS.handleMessage e s p) w = w) /\
  (d <> JUndef -> d <> JNull ->
     let cur := mkCursor (next_color e (map_get jsstr_eqb (cursor_table w) (userId c)))
                         (prop d (js "x")) (prop d (js "y")) (now e) in
     cursor_table (exec (WS.handleMessage e s p) w) =
       map_set jsstr_eqb (cursor_table w) (userId c) cur /\
     sent (exec (WS.handleMessage e s p) w) =
       sent w ++ fanout (live_others w s)
         (mkMessage (js "cursor_update") (userId c) (DCursor (userId c) cur))).
Proof.
  intros H Hws Ht d. split.
  - intros Hd. unfold exec. rewrite (handleMessage_cursor_nodata e w s c p H Ht Hd). reflexivity.
  - intros Hd1 Hd2 cur.
    destruct (handleMessage_cursor_effects e w s c p H Hws Ht Hd1 Hd2) as [H1 [_ H3]].
    split; [exact H1 | exact H3].
Qed.

Lemma cursor_update_unvalidated_witness :
  let c := mkClient 1 (user_id (now env1) (rnd_id env1)) None in
  let d := prop (parsed_of c p_cursor_empty) (js "data") in
  ((d = JUndef \/ d = JNull) -> exec (WS.handleMessage env1 1 p_cursor_empty) w_two = w_two) /\
  (d <> JUndef -> d <> JNull ->
     let cur := mkCursor (next_color env1 (map_get jsstr_eqb (cursor_table w_two) (userId c)))
                         (prop d (js "x")) (prop d (js "y")) (now env1) in
     cursor_table (exec (WS.handleMessage env1 1 p_cursor_empty) w_two) =
       map_set jsstr_eqb (cursor_table w_two) (userId c) cur /\
     sent (exec (WS.handleMessage env1 1 p_cursor_empty) w_two) =
       sent w_two ++ fanout (live_others w_two 1)
         (mkMessage (js "cursor_update") (userId c) (DCursor (userId c) cur))).
Proof.
  apply (cursor_update_unvalidated env1 1 (mkClient 1 (user_id (now env1) (rnd_id env1)) None)
           p_cursor_empty w_two); vm_compute; reflexivity.
Defined.

(** C2 (as stated, refuted): [getCursors()] hands out the store's own
    Map; clearing it through the returned reference empties the server's
    cursor table. *)
Lemma getCursors_clear_empties_store :
  cursor_table w_cur <> [] /\
  cursor_table (exec (l <- WS.getCursors ;; WS.ref_map_clear l) w_cur) = [].
Proof. vm_compute. split; [discriminate | reflexivity]. Qed.

(** C2 (amended): [getCursors()] returns the reference to the store's own
    [cursors] Map, not a copy; [set], [delete] and [clear] called on the
    returned value are applied to the store's cursor table. *)
Theorem getCursors_aliases_store w k cur :
  result WS.getCursors w = Some (cursors w) /\
  cursor_table (exec (l <- WS.getCursors ;; WS.ref_map_set l k cur) w) =
    map_set jsstr_eqb (cursor_table w) k cur /\
  cursor_table (exec (l <- WS.getCursors ;; WS.ref_map_delete l k) w) =
    map_delete jsstr_eqb (cursor_table w) k /\
  cursor_table (exec (l <- WS.getCursors ;; WS.ref_map_clear l) w) = [].
Proof.
  split; [reflexivity|].
  unfold exec, bind, WS.getCursors, gets, WS.ref_map_set, WS.ref_map_delete,
    WS.ref_map_clear, modify.
  split; [|split]; apply cursor_table_heap_upd.
Qed.

(** C7: with [Math.random()] in range, a cursor_update from a registered
    client assigns, when its identity has no cursor yet, a palette color;
    when it has one (with a palette color), that color is kept.  Two
    accepted updates in a row leave the color of the first, with position
    and timestamp of the second. *)
Theorem cursor_color_stable e1 e2 s c p1 p2 w :
  map_get Nat.eqb (clients w) s = Some c ->
  ws c = s ->
  env_wf e1 ->
  (forall old, map_get jsstr_eqb (cursor_table w) (userId c) = Some old ->
     In (color old) WS.palette) ->
  is_str (prop (parsed_of c p1) (js "type")) (js "cursor_update") = true ->
  prop (parsed_of c p1) (js "data") <> JUndef ->
  prop (parsed_of c p1) (js "data") <> JNull ->
  is_str (prop (parsed_of c p2) (js "type")) (js "cursor_update") = true ->
  prop (parsed_of c p2) (js "data") <> JUndef ->
  prop (parsed_of c p2) (js "data") <> JNull ->
  let d1 := prop (parsed_of c p1) (js "data") in
  let d2 := prop (parsed_of c p2) (js "data") in
  let w1 := exec (WS.handleMessage e1 s p1) w in
  let w2 := exec (WS.handleMessage e2 s p2) w1 in
  exists col, In col WS.palette /\
    (forall old, map_get jsstr_eqb (cursor_table w) (userId c) = Some old -> col = color old) /\
    map_get jsstr_eqb (cursor_table w1) (userId c) =
      Some (mkCursor col (prop d1 (js "x")) (prop d1 (js "y")) (now e1)) /\
    map_get jsstr_eqb (cursor_table w2) (userId c) =
      Some (mkCursor col (prop d2 (js "x")) (prop d2 (js "y")) (now e2)).
Proof.
  intros H Hws He Hpal Ht1 Hd1 Hd1' Ht2 Hd2 Hd2' d1 d2 w1 w2.
  set (col := next_color e1 (map_get jsstr_eqb (cursor_table w) (userId c))).
  set (cur1 := mkCursor col (prop d1 (js "x")) (prop d1 (js "y")) (now e1)).
  destruct (handleMessage_cursor_effects e1 w s c p1 H Hws Ht1 Hd1 Hd1')
    as [T1 [C1 _]].
  fold d1 col cur1 w1 in T1, C1.
  assert (Hcol : In col WS.palette /\
                 (forall old, map_get jsstr_eqb (cursor_table w) (userId c) = Some old ->
                              col = color old)).
  { unfold col, next_color.
    destruct (map_get jsstr_eqb (cursor_table w) (userId c)) as [old|] eqn:E.
    - rewrite (palette_truthy _ (Hpal old eq_refl)).
      split; [exact (Hpal old eq_refl)|]. intros o Ho; injection Ho as <-; reflexivity.
    - split; [apply generateRandomColor_in; exact He | discriminate]. }
  destruct Hcol as [Hin Hold].
  exists col. split; [exact Hin|]. split; [exact Hold|].
  assert (G1 : map_get jsstr_eqb (cursor_table w1) (userId c) = Some cur1)
    by (rewrite T1; apply map_get_set, jsstr_eqb_refl).
  split; [exact G1|].
  set (c' := mkClient s (userId c) (Some cur1)).
  assert (Hc' : map_get Nat.eqb (clients w1) s = Some c')
    by (rewrite C1; apply map_get_set, Nat.eqb_refl).
  assert (Hp : parsed_of c' p2 = parsed_of c p2) by (apply parsed_of_userId; reflexivity).
  rewrite <- Hp in Ht2, Hd2, Hd2'.
  destruct (handleMessage_cursor_effects e2 w1 s c' p2 Hc' eq_refl Ht2 Hd2 Hd2')
    as [T2 _].
  fold w2 in T2. rewrite T2. simpl userId. rewrite map_get_set by apply jsstr_eqb_refl.
  rewrite G1. unfold next_color. simpl color.
  rewrite (palette_truthy _ Hin). unfold d2. rewrite Hp. reflexivity.
Qed.

Lemma cursor_color_stable_witness :
  let c := mkClient 1 (user_id (now env1) (rnd_id env1)) None in
  let d1 := prop (parsed_of c p_cursor_ok) (js "data") in
  let d2 := prop (parsed_of c p_cursor_ok2) (js "data") in
  let w1 := exec (WS.handleMessage env1 1 p_cursor_ok) w_two in
  let w2 := exec (WS.handleMessage env2 1 p_cursor_ok2) w1 in
  exists col, In col WS.palette /\
    (forall old, map_get jsstr_eqb (cursor_table w_two) (userId c) = Some old -> col = color old) /\
    map_get jsstr_eqb (cursor_table w1) (userId c) =
      Some (mkCursor col (prop d1 (js "x")) (prop d1 (js "y")) (now env1)) /\
    map_get jsstr_eqb (cursor_table w2) (userId c) =
      Some (mkCursor col (prop d2 (js "x")) (prop d2 (js "y")) (now env2)).
Proof.
  apply (cursor_color_stable env1 env2 1 (mkClient 1 (user_id (now env1) (rnd_id env1)) None)
           p_cursor_ok p_cursor_ok2 w_two);
    vm_compute; first [reflexivity | discriminate | lia].
Defined.

(** *** Identities built by [addClient] *)

Lemma js_inj a b : js a = js b -> a = b.
Proof.
  unfold js. intros H.
  rewrite <- (string_of_list_ascii_of_string a), <- (string_of_list_ascii_of_string b).
  f_equal. revert H. generalize (list_ascii_of_string a), (list_ascii_of_string b).
  induction l as [|x l IH]; intros [|y l']; simpl; try discriminate; [reflexivity|].
  intros H; injection H as Hxy Hl.
  rewrite <- (ascii_N_embedding x), <- (ascii_N_embedding y), Hxy, (IH l' Hl). reflexivity.
Qed.

Lemma dec_inj n m : dec n = dec m -> n = m.
Proof.
  unfold dec. intros H. apply js_inj in H.
  apply (f_equal NilEmpty.uint_of_string) in H. rewrite !NilEmpty.usu in H.
  injection H as H. apply (f_equal N.of_uint) in H.
  rewrite !DecimalN.Unsigned.of_to in H. exact H.
Qed.

Lemma dec_no_underscore n : ~ In 95%N (dec n).
Proof.
  unfold dec. induction (N.to_uint n) as [|u IH|u IH|u IH|u IH|u IH|u IH|u IH|u IH|u IH|u IH];
    simpl; [tauto|..]; intros [Hc|Hc]; try (vm_compute in Hc; discriminate); exact (IH Hc).
Qed.

Lemma split_at_underscore a b r1 r2 :
  ~ In 95%N a -> ~ In 95%N b -> a ++ 95%N :: r1 = b ++ 95%N :: r2 -> a = b /\ r1 = r2.
Proof.
  revert b; induction a as [|x a IH]; intros [|y b] Ha Hb H; simpl in *.
  - injection H as H; split; [reflexivity | exact H].
  - injection H as Hy _. exfalso; apply Hb; left; symmetry; exact Hy.
  - injection H as Hx _. exfalso; apply Ha; left; exact Hx.
  - injection H as Hxy Hr. subst y.
    destruct (IH b (fun h => Ha (or_intror h)) (fun h => Hb (or_intror h)) Hr) as [-> ->].
    split; reflexivity.
Qed.

Lemma user_id_inj n1 r1 n2 r2 : user_id n1 r1 = user_id n2 r2 -> n1 = n2 /\ r1 = r2.
Proof.
  unfold user_id. intros H. apply app_inv_head in H.
  destruct (split_at_underscore _ _ _ _ (dec_no_underscore n1) (dec_no_underscore n2) H)
    as [Hd Hr].
  split; [apply dec_inj; exact Hd | exact Hr].
Qed.

Lemma addClient_result e s w : result (WS.addClient e s) w = Some (user_id (now e) (rnd_id e)).
Proof.
  unfold result, WS.addClient, WS.sendToClient, bind, WS.clients_set, modify, gets.
  cbv beta.
  match goal with |- context [is_open ?w' s] => destruct (is_open w' s) end;
    unfold bind, modify, ret;
    rewrite broadcastToOthers_eq; reflexivity.
Qed.

(** C8 (as stated, refuted): [addClient] does not check the identities
    in use; two registrations in the same millisecond that draw the same
    random suffix get the same identity, the first still connected. *)
Lemma addClient_same_seed_collides :
  result (WS.addClient env1 2) w_one = Some (user_id (now env1) (rnd_id env1)) /\
  In (user_id (now env1) (rnd_id env1)) (live_ids w_one).
Proof. split; vm_compute; [reflexivity | left; reflexivity]. Qed.

(** C8 (amended): [addClient] returns [user_<Date.now()>_<suffix>],
    [suffix] being [Math.random().toString(36).substr(2, 9)], without
    looking at the live identities.  It differs from every live identity
    whenever each of those was built from a different millisecond or a
    different suffix. *)
Theorem addClient_unique_when_seed_fresh e s w :
  (forall id, In id (live_ids w) ->
     exists n r, id = user_id n r /\ (n <> now e \/ r <> rnd_id e)) ->
  result (WS.addClient e s) w = Some (user_id (now e) (rnd_id e)) /\
  ~ In (user_id (now e) (rnd_id e)) (live_ids w).
Proof.
  intros H. split; [apply addClient_result|].
  intros Hin. destruct (H _ Hin) as [n [r [Hid Hd]]].
  destruct (user_id_inj _ _ _ _ Hid) as [Hn Hr].
  destruct Hd as [Hd|Hd]; apply Hd; symmetry; assumption.
Qed.

Lemma addClient_unique_when_seed_fresh_witness :
  result (WS.addClient env2 2) w_one = Some (user_id (now env2) (rnd_id env2)) /\
  ~ In (user_id (now env2) (rnd_id env2)) (live_ids w_one).
Proof.
  apply addClient_unique_when_seed_fresh.
  intros id Hin. vm_compute in Hin. destruct Hin as [<-|[]].
  exists (now env1), (rnd_id env1). split; [vm_compute; reflexivity|].
  left. vm_compute. discriminate.
Defined.

(* ------------------------------------------------------------------ *)
(** ** Facts on [Map]s with a decidable key equality *)

Section AssocFacts.
Variables K V : Type.
Variable eqk : K -> K -> bool.
Hypothesis eqk_spec : forall a b, eqk a b = true <-> a = b.

Lemma eqk_refl a : eqk a a = true.
Proof. apply eqk_spec; reflexivity. Qed.

Lemma get_none_notin (m : list (K * V)) k : map_get eqk m k = None -> ~ In k (map fst m).
Proof.
  induction m as [|[k' v'] m IH]; simpl; [auto|].
  destruct (eqk k k') eqn:E; [discriminate|].
  intros H [Hk|Hi]; [subst; rewrite eqk_refl in E; discriminate | exact (IH H Hi)].
Qed.

Lemma get_some_in (m : list (K * V)) k v : map_get eqk m k = Some v -> In (k, v) m.
Proof.
  induction m as [|[k' v'] m IH]; simpl; [discriminate|].
  destruct (eqk k k') eqn:E.
  - intros H; injection H as <-. apply eqk_spec in E; subst. left; reflexivity.
  - intros H; right; exact (IH H).
Qed.

Lemma nodup_get (m : list (K * V)) k v :
  NoDup (map fst m) -> In (k, v) m -> map_get eqk m k = Some v.
Proof.
  induction m as [|[k' v'] m IH]; simpl; [tauto|].
  intros Hnd Hin. inversion Hnd as [|? ? Hn Hnd']; subst.
  destruct Hin as [Heq|Hin].
  - injection Heq as -> ->. rewrite eqk_refl. reflexivity.
  - destruct (eqk k k') eqn:E.
    + apply eqk_spec in E; subst. exfalso; apply Hn.
      apply (in_map fst) in Hin; exact Hin.
    + exact (IH Hnd' Hin).
Qed.

Lemma in_set (m : list (K * V)) k v k' v' :
  In (k', v') (map_set eqk m k v) -> (k' = k /\ v' = v) \/ In (k', v') m.
Proof.
  induction m as [|[k1 v1] m IH]; simpl.
  - intros [H|[]]; injection H as -> ->; left; split; reflexivity.
  - destruct (eqk k k1) eqn:E; simpl.
    + apply eqk_spec in E; subst.
      intros [H|H]; [injection H as -> ->; left; split; reflexivity | right; right; exact H].
    + intros [H|H]; [right; left; exact H|].
      destruct (IH H) as [H'|H']; [left; exact H' | right; right; exact H'].
Qed.

Lemma set_in_self (m : list (K * V)) k v : In (k, v) (map_set eqk m k v).
Proof.
  induction m as [|[k1 v1] m IH]; simpl; [left; reflexivity|].
  destruct (eqk k k1) eqn:E; simpl.
  - apply eqk_spec in E; subst. left; reflexivity.
  - right; exact IH.
Qed.

Lemma set_keeps (m : list (K * V)) k v k' v' :
  In (k', v') m -> k' <> k -> In (k', v') (map_set eqk m k v).
Proof.
  induction m as [|[k1 v1] m IH]; simpl; [tauto|].
  intros Hin Hne. destruct (eqk k k1) eqn:E; simpl.
  - apply eqk_spec in E; subst.
    destruct Hin as [H|H]; [injection H as -> _; congruence | right; exact H].
  - destruct Hin as [H|H]; [left; exact H | right; exact (IH H Hne)].
Qed.

Lemma fst_set (m : list (K * V)) k v :
  map_get eqk m k = None -> map fst (map_set eqk m k v) = map fst m ++ [k].
Proof.
  induction m as [|[k1 v1] m IH]; simpl; [reflexivity|].
  destruct (eqk k k1); [discriminate|]. simpl. intros H; rewrite (IH H); reflexivity.
Qed.

Lemma set_nodup (m : list (K * V)) k v :
  NoDup (map fst m) -> NoDup (map fst (map_set eqk m k v)).
Proof.
  intros Hnd. destruct (map_get eqk m k) as [v0|] eqn:E.
  - rewrite (map_fst_set_present eqk m k v0 v E). exact Hnd.
  - rewrite (fst_set m k v E). apply NoDup_app; [exact Hnd | constructor; [simpl; tauto | constructor] |].
    intros x Hx [Hy|[]]; subst. exact (get_none_notin m x E Hx).
Qed.

Lemma in_delete (m : list (K * V)) k k' v' :
  In (k', v') (map_delete eqk m k) <-> In (k', v') m /\ k' <> k.
Proof.
  unfold map_delete. rewrite filter_In. simpl.
  split; intros [H1 H2]; split; try exact H1.
  - intros ->. rewrite eqk_refl in H2. discriminate.
  - destruct (eqk k k') eqn:E; [|reflexivity]. apply eqk_spec in E. congruence.
Qed.

Lemma delete_nodup (m : list (K * V)) k :
  NoDup (map fst m) -> NoDup (map fst (map_delete eqk m k)).
Proof.
  unfold map_delete. induction m as [|[k1 v1] m IH]; simpl; [auto|].
  intros Hnd. inversion Hnd as [|? ? Hn Hnd']; subst.
  destruct (negb (eqk k k1)); simpl; [|exact (IH Hnd')].
  constructor; [|exact (IH Hnd')].
  intros Hin. apply Hn. apply in_map_iff in Hin as [[a b] [Ha Hb]]. simpl in Ha; subst.
  apply filter_In in Hb as [Hb _]. apply (in_map fst) in Hb. exact Hb.
Qed.

End AssocFacts.

Arguments get_none_notin {K V} eqk eqk_spec m k.
Arguments get_some_in {K V} eqk eqk_spec m k v.
Arguments nodup_get {K V} eqk eqk_spec m k v.
Arguments in_set {K V} eqk eqk_spec m k v k' v'.
Arguments set_in_self {K V} eqk eqk_spec m k v.
Arguments set_keeps {K V} eqk eqk_spec m k v k' v'.
Arguments fst_set {K V} eqk m k v.
Arguments set_nodup {K V} eqk eqk_spec m k v.
Arguments in_delete {K V} eqk eqk_spec m k k' v'.
Arguments delete_nodup {K V} eqk m k.

Lemma jsstr_eqb_spec a b : jsstr_eqb a b = true <-> a = b.
Proof. split; [apply jsstr_eqb_eq | intros ->; apply jsstr_eqb_refl]. Qed.

(* ------------------------------------------------------------------ *)
(** ** Every outcome of an event *)

Lemma handleMessage_chat_nodata e w s c p :
  map_get Nat.eqb (clients w) s = Some c ->
  is_str (prop (parsed_of c p) (js "type")) (js "cursor_update") = false ->
  is_str (prop (parsed_of c p) (js "type")) (js "chat_message") = true ->
  prop (parsed_of c p) (js "data") = JUndef \/ prop (parsed_of c p) (js "data") = JNull ->
  WS.handleMessage e s p w = Ok tt w.
Proof.
  intros H Hc Ht Hd.
  rewrite (handleMessage_registered e s p w c H).
  destruct (prop_is_str_obj _ _ _ Ht) as [Hv1 Hv2].
  unfold try_catch, bind. rewrite (js_get_prop _ _ _ Hv1 Hv2), Hc, Ht.
  rewrite (js_get_prop _ _ _ Hv1 Hv2).
  unfold WS.handleChatMessage, bind.
  destruct Hd as [Hd|Hd]; rewrite Hd; reflexivity.
Qed.

(** [handleMessage] either changes nothing, only sends to live sockets,
    or performs the cursor update of a registered client. *)
Lemma handleMessage_cases e s p w :
  exec (WS.handleMessage e s p) w = w \/
  (exists l, exec (WS.handleMessage e s p) w = add_sent w l /\
             forall t m, In (t, m) l -> In t (live w)) \/
  (exists c, map_get Nat.eqb (clients w) s = Some c /\
     let d := prop (parsed_of c p) (js "data") in
     let cur := mkCursor (next_color e (map_get jsstr_eqb (cursor_table w) (userId c)))
                         (prop d (js "x")) (prop d (js "y")) (now e) in
     let w1 := heap_upd (cursors w) (map_set jsstr_eqb (cursor_table w) (userId c) cur) w in
     let w2 := set_clients (map_set Nat.eqb (clients w1) (ws c)
                              (mkClient (ws c) (userId c) (Some cur))) w1 in
     exec (WS.handleMessage e s p) w =
     add_sent w2 (fanout (live_others w2 (ws c))
                    (mkMessage (js "cursor_update") (userId c) (DCursor (userId c) cur)))).
Proof.
  unfold exec.
  destruct (map_get Nat.eqb (clients w) s) as [c|] eqn:Hc.
  2: { left. rewrite (handleMessage_unregistered e s p w Hc). reflexivity. }
  assert (Hnd : forall d, d = JUndef \/ d = JNull \/ (d <> JUndef /\ d <> JNull))
    by (intros []; auto; right; right; split; discriminate).
  destruct (is_str (prop (parsed_of c p) (js "type")) (js "cursor_update")) eqn:H1.
  - destruct (Hnd (prop (parsed_of c p) (js "data"))) as [Hd|[Hd|[Hd1 Hd2]]].
    + left. rewrite (handleMessage_cursor_nodata e w s c p Hc H1 (or_introl Hd)). reflexivity.
    + left. rewrite (handleMessage_cursor_nodata e w s c p Hc H1 (or_intror Hd)). reflexivity.
    + right; right. exists c. split; [reflexivity|].
      rewrite (handleMessage_cursor e w s c p Hc H1 Hd1 Hd2). reflexivity.
  - destruct (is_str (prop (parsed_of c p) (js "type")) (js "chat_message")) eqn:H2.
    + destruct (Hnd (prop (parsed_of c p) (js "data"))) as [Hd|[Hd|[Hd1 Hd2]]].
      * left. rewrite (handleMessage_chat_nodata e w s c p Hc H1 H2 (or_introl Hd)). reflexivity.
      * left. rewrite (handleMessage_chat_nodata e w s c p Hc H1 H2 (or_intror Hd)). reflexivity.
      * right; left. rewrite (handleMessage_chat e w s c p Hc H2 Hd1 Hd2).
        eexists; split; [reflexivity|].
        intros t m Hin. unfold fanout in Hin. apply in_map_iff in Hin as [t' [Ht' Hin]].
        injection Ht' as -> _. exact Hin.
    + left. rewrite (handleMessage_other e w s p); [reflexivity|].
      intros c' Hc'. rewrite Hc in Hc'. injection Hc' as <-. split; assumption.
Qed.

Lemma addClient_eq e s w :
  let uid := user_id (now e) (rnd_id e) in
  let w1 := set_clients (map_set Nat.eqb (clients w) s (mkClient s uid None)) w in
  exec (WS.addClient e s) w =
  add_sent w1 ((if is_open w s
                 then [(s, mkMessage (js "user_joined") uid
                             (DWelcome uid (js "Connected successfully!") (cursor_table w)))]
                 else [])
               ++ fanout (live_others w1 s)
                    (mkMessage (js "user_joined") uid
                       (DNotice uid (uid ++ js " joined the session")))).
Proof.
  intros uid w1.
  unfold exec, WS.addClient, WS.sendToClient, bind, WS.clients_set, modify, gets.
  cbv beta.
  change (is_open (set_clients ?m w) s) with (is_open w s).
  change (cursor_table (set_clients ?m w)) with (cursor_table w).
  destruct (is_open w s); unfold ret; cbv beta iota;
    rewrite broadcastToOthers_eq; cbv beta iota.
  - change (log_send s ?m ?w0) with (add_sent w0 [(s, m)]).
    rewrite add_sent_app. reflexivity.
  - reflexivity.
Qed.

Lemma filter_others_app (f : socket -> bool) l s :
  ~ In s l ->
  filter (fun t => negb (Nat.eqb t s) && f t) (l ++ [s]) = filter f l.
Proof.
  induction l as [|t l IH]; simpl; intros Hn.
  - rewrite Nat.eqb_refl. reflexivity.
  - destruct (Nat.eqb t s) eqn:E.
    + apply Nat.eqb_eq in E; subst. exfalso; apply Hn; left; reflexivity.
    + simpl. rewrite IH by tauto. reflexivity.
Qed.

Lemma in_live_ids k w :
  In k (live_ids w) <-> exists s c, In (s, c) (clients w) /\ userId c = k.
Proof.
  unfold live_ids. rewrite in_map_iff. split.
  - intros [[s c] [H1 H2]]. exists s, c. split; assumption.
  - intros [s [c [H1 H2]]]. exists (s, c). split; assumption.
Qed.

Lemma map_set_absent {K V} (eqk : K -> K -> bool) (m : list (K * V)) k v :
  map_get eqk m k = None -> map_set eqk m k v = m ++ [(k, v)].
Proof.
  induction m as [|[k1 v1] m IH]; simpl; [reflexivity|].
  destruct (eqk k k1); [discriminate|]. intros H; rewrite (IH H); reflexivity.
Qed.

Lemma addClient_fresh_eq e s w :
  map_get Nat.eqb (clients w) s = None ->
  let uid := user_id (now e) (rnd_id e) in
  exec (WS.addClient e s) w =
  add_sent (set_clients (clients w ++ [(s, mkClient s uid None)]) w)
    ((if is_open w s
      then [(s, mkMessage (js "user_joined") uid
                  (DWelcome uid (js "Connected successfully!") (cursor_table w)))]
      else [])
     ++ fanout (live w)
          (mkMessage (js "user_joined") uid (DNotice uid (uid ++ js " joined the session")))).
Proof.
  intros H uid. rewrite addClient_eq. fold uid.
  rewrite (map_set_absent Nat.eqb _ _ _ H). f_equal. f_equal.
  unfold live_others, live; simpl. rewrite map_app. simpl.
  rewrite filter_others_app; [reflexivity|]. exact (get_none_notin Nat.eqb Nat.eqb_eq _ _ H).
Qed.

(* ------------------------------------------------------------------ *)
(** ** The invariant of reachable worlds *)

Lemma inv_add_sent w l : inv w -> inv (add_sent w l).
Proof. intros [H1 H2 H3 H4 H5]; constructor; assumption. Qed.

Lemma inv_init l open : inv (WS.init l open).
Proof.
  constructor; simpl; try constructor; try tauto.
Qed.

Lemma inv_set_open s b w : inv w -> inv (Server.set_open s b w).
Proof. intros [H1 H2 H3 H4 H5]; constructor; assumption. Qed.

Lemma inv_addClient e s w :
  inv w -> map_get Nat.eqb (clients w) s = None -> inv (exec (WS.addClient e s) w).
Proof.
  intros [H1 H2 H3 H4 H5] Hs. rewrite (addClient_fresh_eq e s w Hs).
  apply inv_add_sent. constructor; simpl.
  - rewrite map_app. apply NoDup_app; [exact H1 | constructor; [simpl; tauto | constructor] |].
    intros x Hx [Hy|[]]; subst. exact (get_none_notin Nat.eqb Nat.eqb_eq _ _ Hs Hx).
  - intros s' c Hin. apply in_app_or in Hin as [Hin|[Hin|[]]].
    + exact (H2 s' c Hin).
    + injection Hin as <- <-. reflexivity.
  - exact H3.
  - intros k Hk. apply H4 in Hk. unfold live_ids in *; simpl.
    rewrite map_app. apply in_or_app. left; exact Hk.
  - exact H5.
Qed.

Lemma inv_removeClient h w : inv w -> inv (exec (WS.removeClient h) w).
Proof.
  intros Hi. destruct (map_get Nat.eqb (clients w) h) as [c|] eqn:Hc.
  2: { unfold exec. rewrite (removeClient_absent h w Hc). exact Hi. }
  destruct Hi as [H1 H2 H3 H4 H5].
  unfold exec. rewrite (removeClient_present h c w Hc).
  apply inv_add_sent. constructor; unfold cursor_table; simpl; rewrite ?Nat.eqb_refl.
  - apply delete_nodup; exact H1.
  - intros s' c' Hin. apply (in_delete Nat.eqb Nat.eqb_eq) in Hin as [Hin _]. exact (H2 s' c' Hin).
  - apply delete_nodup; exact H3.
  - intros k Hk. apply in_map_iff in Hk as [[k' cur] [Hk Hin]]. simpl in Hk; subst k'.
    apply (in_delete jsstr_eqb jsstr_eqb_spec) in Hin as [Hin Hne].
    apply (in_map fst) in Hin. apply H4 in Hin.
    apply in_live_ids in Hin as [s' [c' [Hin Hu]]].
    apply in_live_ids. exists s', c'. split; [|exact Hu].
    apply (in_delete Nat.eqb Nat.eqb_eq). split; [exact Hin|].
    intros ->. rewrite (nodup_get Nat.eqb Nat.eqb_eq _ _ _ H1 Hin) in Hc.
    injection Hc as ->. exact (Hne (eq_sym Hu)).
  - intros k cur Hin. apply (in_delete jsstr_eqb jsstr_eqb_spec) in Hin as [Hin _].
    exact (H5 k cur Hin).
Qed.

Lemma next_color_in e old :
  env_wf e -> (forall c, old = Some c -> In (color c) WS.palette) ->
  In (next_color e old) WS.palette.
Proof.
  intros He Hold. unfold next_color. destruct old as [c|].
  - rewrite (palette_truthy _ (Hold c eq_refl)). exact (Hold c eq_refl).
  - apply generateRandomColor_in; exact He.
Qed.

Lemma inv_handleMessage e s p w :
  env_wf e -> inv w -> inv (exec (WS.handleMessage e s p) w).
Proof.
  intros He Hi.
  destruct (handleMessage_cases e s p w) as [H|[[l [H _]]|[c [Hc H]]]]; rewrite H.
  - exact Hi.
  - apply inv_add_sent; exact Hi.
  - apply inv_add_sent. destruct Hi as [H1 H2 H3 H4 H5].
    pose proof (get_some_in Nat.eqb Nat.eqb_eq _ _ _ Hc) as Hcin.
    pose proof (H2 _ _ Hcin) as Hws. rewrite Hws.
    set (cur := mkCursor _ _ _ _).
    constructor; unfold cursor_table; simpl; rewrite ?Nat.eqb_refl.
    + apply set_nodup; [exact Nat.eqb_eq | exact H1].
    + intros s' c' Hin. apply (in_set Nat.eqb Nat.eqb_eq) in Hin as [[-> ->]|Hin].
      * reflexivity.
      * exact (H2 s' c' Hin).
    + apply set_nodup; [exact jsstr_eqb_spec | exact H3].
    + intros k Hk. apply in_map_iff in Hk as [[k' v'] [Hk Hin]]. simpl in Hk; subst k'.
      apply in_live_ids.
      apply (in_set jsstr_eqb jsstr_eqb_spec) in Hin as [[-> _]|Hin].
      * exists s, (mkClient s (userId c) (Some cur)). split; [|reflexivity].
        apply set_in_self; exact Nat.eqb_eq.
      * apply (in_map fst) in Hin. apply H4, in_live_ids in Hin as [s' [c' [Hin Hu]]].
        destruct (Nat.eqb s' s) eqn:E.
        -- apply Nat.eqb_eq in E; subst s'.
           rewrite (nodup_get Nat.eqb Nat.eqb_eq _ _ _ H1 Hin) in Hc. injection Hc as Hcc.
           rewrite Hcc in Hu.
           exists s, (mkClient s (userId c) (Some cur)). split; [|exact Hu].
           apply set_in_self; exact Nat.eqb_eq.
        -- exists s', c'. split; [|exact Hu].
           apply (set_keeps Nat.eqb Nat.eqb_eq); [exact Hin|].
           intros ->. rewrite Nat.eqb_refl in E. discriminate.
    + intros k cur' Hin. apply (in_set jsstr_eqb jsstr_eqb_spec) in Hin as [[_ ->]|Hin].
      * simpl. apply next_color_in; [exact He|].
        intros c0 Hc0. apply (get_some_in jsstr_eqb jsstr_eqb_spec) in Hc0.
        exact (H5 _ _ Hc0).
      * exact (H5 k cur' Hin).
Qed.

Lemma inv_step w ev : inv w -> Server.event_ok w ev -> inv (Server.step w ev).
Proof.
  intros Hi Hok. destruct ev as [e s|e s p|s|s|s b]; simpl in *.
  - apply inv_addClient; [exact Hi | exact (proj1 Hok)].
  - apply inv_handleMessage; assumption.
  - apply inv_removeClient; exact Hi.
  - apply inv_removeClient; exact Hi.
  - apply inv_set_open; exact Hi.
Qed.

Lemma reachable_inv w : reachable w -> inv w.
Proof.
  induction 1 as [l open|w ev Hr IH Hok].
  - apply inv_init.
  - apply inv_step; assumption.
Qed.

Lemma get_set_other {K V} (eqk : K -> K -> bool) (eqk_spec : forall a b, eqk a b = true <-> a = b)
  (m : list (K * V)) k v k' :
  k' <> k -> map_get eqk (map_set eqk m k v) k' = map_get eqk m k'.
Proof.
  intros Hne. induction m as [|[k1 v1] m IH]; simpl.
  - destruct (eqk k' k) eqn:E; [apply eqk_spec in E; congruence | reflexivity].
  - destruct (eqk k k1) eqn:E; simpl.
    + apply eqk_spec in E; subst k1.
      destruct (eqk k' k) eqn:E'; [apply eqk_spec in E'; congruence | reflexivity].
    + destruct (eqk k' k1); [reflexivity | exact IH].
Qed.

Lemma get_delete_other {K V} (eqk : K -> K -> bool) (eqk_spec : forall a b, eqk a b = true <-> a = b)
  (m : list (K * V)) k k' :
  k' <> k -> map_get eqk (map_delete eqk m k) k' = map_get eqk m k'.
Proof.
  intros Hne. unfold map_delete. induction m as [|[k1 v1] m IH]; simpl; [reflexivity|].
  destruct (eqk k k1) eqn:E; simpl.
  - apply eqk_spec in E; subst k1.
    destruct (eqk k' k) eqn:E'; [apply eqk_spec in E'; congruence | exact IH].
  - destruct (eqk k' k1); [reflexivity | exact IH].
Qed.

Lemma map_set_same_proj {K V W} (eqk : K -> K -> bool) (f : V -> W) (m : list (K * V)) k v v' :
  map_get eqk m k = Some v -> f v' = f v ->
  map (fun kv => f (snd kv)) (map_set eqk m k v') = map (fun kv => f (snd kv)) m.
Proof.
  intros H Hf. induction m as [|[k1 v1] m IH]; simpl in *; [discriminate|].
  destruct (eqk k k1); simpl.
  - injection H as ->. rewrite Hf. reflexivity.
  - rewrite (IH H). reflexivity.
Qed.

(* ------------------------------------------------------------------ *)
(** ** Further properties of the server *)

(** [addClient] on a socket that is not registered appends it to
    [clients] with a fresh [Client] (no cursor), leaves the cursor table
    alone, sends the new socket (when OPEN) a [user_joined] welcome
    carrying its identity and a copy of every known cursor, and sends a
    [user_joined] notice to every other registered OPEN socket. *)
Theorem addClient_registers_and_announces e s w :
  map_get Nat.eqb (clients w) s = None ->
  let uid := user_id (now e) (rnd_id e) in
  let w' := exec (WS.addClient e s) w in
  clients w' = clients w ++ [(s, mkClient s uid None)] /\
  cursor_table w' = cursor_table w /\
  sent w' = sent w ++
    (if is_open w s
     then [(s, mkMessage (js "user_joined") uid
                 (DWelcome uid (js "Connected successfully!") (cursor_table w)))]
     else [])
    ++ fanout (live w)
         (mkMessage (js "user_joined") uid (DNotice uid (uid ++ js " joined the session"))).
Proof.
  intros H uid w'. unfold w'. rewrite (addClient_fresh_eq e s w H).
  split; [reflexivity|]. split; reflexivity.
Qed.

Lemma addClient_registers_and_announces_witness :
  let uid := user_id (now env2) (rnd_id env2) in
  let w' := exec (WS.addClient env2 2) w_one in
  clients w' = clients w_one ++ [(2, mkClient 2 uid None)] /\
  cursor_table w' = cursor_table w_one /\
  sent w' = sent w_one ++
    (if is_open w_one 2
     then [(2, mkMessage (js "user_joined") uid
                 (DWelcome uid (js "Connected successfully!") (cursor_table w_one)))]
     else [])
    ++ fanout (live w_one)
         (mkMessage (js "user_joined") uid (DNotice uid (uid ++ js " joined the session"))).
Proof. apply addClient_registers_and_announces. vm_compute. reflexivity. Defined.

(** In every reachable world the [clients] Map has one entry per socket
    and each entry's [Client.ws] is the socket it is stored under. *)
Theorem reachable_registry_wf w :
  reachable w ->
  NoDup (map fst (clients w)) /\ forall s c, In (s, c) (clients w) -> ws c = s.
Proof. intros Hr. destruct (reachable_inv w Hr) as [H1 H2 _ _ _]. split; assumption. Qed.

Lemma w_two_reachable : reachable w_two.
Proof.
  apply (reach_step w_one (Server.Connection env2 2)).
  - apply (reach_step w_init (Server.Connection env1 1)).
    + apply reach_init.
    + split; [reflexivity | unfold env_wf; simpl; lia].
  - split; [reflexivity | unfold env_wf; simpl; lia].
Qed.

Lemma reachable_registry_wf_witness :
  NoDup (map fst (clients w_two)) /\ forall s c, In (s, c) (clients w_two) -> ws c = s.
Proof. apply reachable_registry_wf. exact w_two_reachable. Defined.

(** In every reachable world each identity in the cursor table is the
    identity of a registered client, and appears there once. *)
Theorem reachable_cursor_owner_live w :
  reachable w ->
  NoDup (map fst (cursor_table w)) /\
  forall k, In k (map fst (cursor_table w)) -> In k (live_ids w).
Proof. intros Hr. destruct (reachable_inv w Hr) as [_ _ H3 H4 _]. split; assumption. Qed.


Lemma w_cur_reachable : reachable w_cur.
Proof.
  apply (reach_step w_two (Server.WsMessage env1 1 p_cursor_ok)).
  - exact w_two_reachable.
  - unfold Server.event_ok, env_wf; simpl; lia.
Qed.

(** In every reachable world every stored cursor's color is one of the ten
    palette colors of [generateRandomColor]. *)
Theorem reachable_cursor_colors_in_palette w :
  reachable w -> Forall (fun kc => In (color (snd kc)) WS.palette) (cursor_table w).
Proof.
  intros Hr. apply Forall_forall. intros [k cur] Hin.
  exact (inv_color w (reachable_inv w Hr) k cur Hin).
Qed.

Lemma reachable_cursor_colors_in_palette_witness :
  Forall (fun kc => In (color (snd kc)) WS.palette) (cursor_table w_cur).
Proof. apply reachable_cursor_colors_in_palette. exact w_cur_reachable. Defined.

Lemma reachable_cursor_owner_live_witness :
  NoDup (map fst (cursor_table w_cur)) /\
  forall k, In k (map fst (cursor_table w_cur)) -> In k (live_ids w_cur).
Proof. apply reachable_cursor_owner_live. exact w_cur_reachable. Defined.

(** [GET /status] reads without writing: it reports [ok: true], the
    number of registered sockets and the number of stored cursors; in every
    reachable world the cursor count never exceeds the client count. *)
Theorem status_cursors_le_clients w :
  reachable w ->
  Server.get_status w =
    Ok (Server.mkStatus true (List.length (clients w)) (List.length (cursor_table w))) w /\
  List.length (cursor_table w) <= List.length (clients w).
Proof.
  intros Hr. split; [reflexivity|].
  destruct (reachable_inv w Hr) as [_ _ H3 H4 _].
  rewrite <- (length_map fst (cursor_table w)), <- (length_map (fun tc => userId (snd tc)) (clients w)).
  apply NoDup_incl_length; [exact H3|]. intros k Hk. exact (H4 k Hk).
Qed.

Lemma status_cursors_le_clients_witness :
  Server.get_status w_cur =
    Ok (Server.mkStatus true (List.length (clients w_cur)) (List.length (cursor_table w_cur))) w_cur /\
  List.length (cursor_table w_cur) <= List.length (clients w_cur).
Proof. apply status_cursors_le_clients. exact w_cur_reachable. Defined.

Lemma in_fanout t m l m' : In (t, m) (fanout l m') -> In t l.
Proof. unfold fanout. intros H. apply in_map_iff in H as [t' [H Hin]]. injection H as -> _. exact Hin. Qed.

Lemma live_others_live w s t : In t (live_others w s) -> In t (live w).
Proof.
  unfold live_others, live. rewrite !filter_In. intros [H1 H2].
  apply andb_prop in H2 as [_ H2]. split; assumption.
Qed.

Lemma get_some_key (m : list (socket * Client)) s c :
  map_get Nat.eqb m s = Some c -> In s (map fst m).
Proof. intros H. apply (in_map fst (m) (s, c)). exact (get_some_in Nat.eqb Nat.eqb_eq m s c H). Qed.

Lemma delete_absent {K V} (eqk : K -> K -> bool) (eqk_spec : forall a b, eqk a b = true <-> a = b)
  (m : list (K * V)) k :
  ~ In k (map fst m) -> map_delete eqk m k = m.
Proof.
  unfold map_delete. induction m as [|[k1 v1] m IH]; simpl; [reflexivity|].
  intros Hn. destruct (eqk k k1) eqn:E.
  - apply eqk_spec in E; subst. exfalso; apply Hn; left; reflexivity.
  - simpl. rewrite IH by tauto. reflexivity.
Qed.

Lemma delete_length {K V} (eqk : K -> K -> bool) (eqk_spec : forall a b, eqk a b = true <-> a = b)
  (m : list (K * V)) k v :
  NoDup (map fst m) -> map_get eqk m k = Some v -> S (List.length (map_delete eqk m k)) = List.length m.
Proof.
  induction m as [|[k1 v1] m IH]; simpl; [discriminate|].
  intros Hnd. inversion Hnd as [|? ? Hn Hnd']; subst.
  destruct (eqk k k1) eqn:E; intros H.
  - apply eqk_spec in E; subst. unfold map_delete in *. simpl.
    f_equal. fold (map_delete eqk m k1). rewrite (delete_absent eqk eqk_spec m k1 Hn). reflexivity.
  - unfold map_delete in *. simpl. f_equal. exact (IH Hnd' H).
Qed.

Lemma map_get_app_absent (m : list (socket * Client)) s c :
  map_get Nat.eqb m s = None -> map_get Nat.eqb (m ++ [(s, c)]) s = Some c.
Proof.
  induction m as [|[k v] m IH]; simpl; [rewrite Nat.eqb_refl; reflexivity|].
  destruct (Nat.eqb s k); [discriminate|exact IH].
Qed.

Lemma table_key_live w k : inv w -> ~ In k (live_ids w) -> ~ In k (map fst (cursor_table w)).
Proof. intros Hi Hn Hk. exact (Hn (inv_tlive w Hi k Hk)). Qed.

(** Every event only appends to the [sent] log, and each message it
    appends goes to a socket that, after the event, is registered in
    [clients] and OPEN: a socket is never written to once [removeClient]
    has dropped it, and [user_left] never reaches the leaving socket. *)
Theorem step_sends_only_to_live w ev :
  exists l, sent (Server.step w ev) = sent w ++ l /\
            forall t m, In (t, m) l -> In t (live (Server.step w ev)).
Proof.
  destruct ev as [e s|e s p|s|s|s b]; simpl.
  - pose proof (addClient_eq e s w) as E. cbv zeta in E. rewrite E.
    eexists; split; [reflexivity|].
    intros t m Hin. apply in_app_or in Hin as [Hin|Hin].
    + destruct (is_open w s) eqn:Ho; [|destruct Hin].
      destruct Hin as [Hin|[]]. injection Hin as -> _.
      unfold live; simpl. apply filter_In. split; [|exact Ho].
      apply (in_map fst _ (t, mkClient t (user_id (now e) (rnd_id e)) None)). apply (set_in_self Nat.eqb Nat.eqb_eq).
    + exact (live_others_live _ _ _ (in_fanout _ _ _ _ Hin)).
  - destruct (handleMessage_cases e s p w) as [E|[[l [E Hl]]|[c [Hc E]]]].
    + rewrite E. exists []. split; [symmetry; apply app_nil_r | intros ? ? []].
    + rewrite E. exists l. split; [reflexivity|]. exact Hl.
    + cbv zeta in E. rewrite E. eexists; split; [reflexivity|].
      intros t m Hin. exact (live_others_live _ _ _ (in_fanout _ _ _ _ Hin)).
  - destruct (map_get Nat.eqb (clients w) s) as [c|] eqn:Hc.
    + unfold exec. rewrite (removeClient_present s c w Hc). eexists; split; [reflexivity|].
      intros t m Hin. exact (live_others_live _ _ _ (in_fanout _ _ _ _ Hin)).
    + unfold exec. rewrite (removeClient_absent s w Hc).
      exists []. split; [symmetry; apply app_nil_r | intros ? ? []].
  - destruct (map_get Nat.eqb (clients w) s) as [c|] eqn:Hc.
    + unfold exec. rewrite (removeClient_present s c w Hc). eexists; split; [reflexivity|].
      intros t m Hin. exact (live_others_live _ _ _ (in_fanout _ _ _ _ Hin)).
    + unfold exec. rewrite (removeClient_absent s w Hc).
      exists []. split; [symmetry; apply app_nil_r | intros ? ? []].
  - exists []. split; [symmetry; apply app_nil_r | intros ? ? []].
Qed.

(** [handleMessage] never changes who is connected: in a reachable world
    the registered sockets, their order and the identities they hold stay
    the same, the entries of all other sockets are untouched, and the
    cursors of every identity other than the sender's are untouched. *)
Theorem handleMessage_frame e s p w :
  reachable w ->
  let w' := exec (WS.handleMessage e s p) w in
  map fst (clients w') = map fst (clients w) /\
  live_ids w' = live_ids w /\
  (forall t, t <> s -> map_get Nat.eqb (clients w') t = map_get Nat.eqb (clients w) t) /\
  (forall k, (forall c, map_get Nat.eqb (clients w) s = Some c -> userId c <> k) ->
     map_get jsstr_eqb (cursor_table w') k = map_get jsstr_eqb (cursor_table w) k).
Proof.
  intros Hr w'. unfold w'.
  destruct (handleMessage_cases e s p w) as [E|[[l [E Hl]]|[c [Hc E]]]].
  - rewrite E. repeat split; intros; reflexivity.
  - rewrite E. repeat split; intros; reflexivity.
  - cbv zeta in E. rewrite E.
    assert (Hws : ws c = s)
      by exact (inv_ws w (reachable_inv w Hr) s c (get_some_in Nat.eqb Nat.eqb_eq _ _ _ Hc)).
    rewrite Hws. unfold add_sent, set_clients, heap_upd, live_ids, cursor_table; simpl.
    split; [exact (map_fst_set_present Nat.eqb _ _ _ _ Hc)|].
    split; [eapply (map_set_same_proj Nat.eqb userId _ _ _ _ Hc); reflexivity|].
    split.
    + intros t Ht. exact (get_set_other Nat.eqb Nat.eqb_eq _ _ _ _ Ht).
    + intros k Hk. rewrite Nat.eqb_refl.
      apply (get_set_other jsstr_eqb jsstr_eqb_spec). intros ->. exact (Hk c Hc eq_refl).
Qed.

Lemma handleMessage_frame_witness :
  let w' := exec (WS.handleMessage env1 1 p_cursor_ok) w_two in
  map fst (clients w') = map fst (clients w_two) /\
  live_ids w' = live_ids w_two /\
  (forall t, t <> 1 -> map_get Nat.eqb (clients w') t = map_get Nat.eqb (clients w_two) t) /\
  (forall k, (forall c, map_get Nat.eqb (clients w_two) 1 = Some c -> userId c <> k) ->
     map_get jsstr_eqb (cursor_table w') k = map_get jsstr_eqb (cursor_table w_two) k).
Proof. apply handleMessage_frame. exact w_two_reachable. Defined.

(** [removeClient(h)] touches only [h]'s entry and the cursor of [h]'s
    identity: every other socket's entry, every other identity's cursor
    and every socket's [readyState] are left as they were. *)
Theorem removeClient_frame h w :
  let w' := exec (WS.removeClient h) w in
  (forall t, t <> h -> map_get Nat.eqb (clients w') t = map_get Nat.eqb (clients w) t) /\
  (forall k, (forall c, map_get Nat.eqb (clients w) h = Some c -> userId c <> k) ->
     map_get jsstr_eqb (cursor_table w') k = map_get jsstr_eqb (cursor_table w) k) /\
  is_open w' = is_open w.
Proof.
  intros w'. unfold w', exec.
  destruct (map_get Nat.eqb (clients w) h) as [c|] eqn:Hc.
  - rewrite (removeClient_present h c w Hc).
    unfold add_sent, set_clients, heap_upd, cursor_table; simpl. rewrite Nat.eqb_refl.
    split; [|split; [|reflexivity]].
    + intros t Ht. exact (get_delete_other Nat.eqb Nat.eqb_eq _ _ _ Ht).
    + intros k Hk. apply (get_delete_other jsstr_eqb jsstr_eqb_spec).
      intros ->. exact (Hk c eq_refl eq_refl).
  - rewrite (removeClient_absent h w Hc). repeat split; intros; reflexivity.
Qed.

(** [getClientCount()] follows the transport: a [connection] of a new
    socket adds one, and in a reachable world a [close] of a registered
    socket removes exactly one while a [close] of an unknown socket
    changes nothing. *)
Theorem client_count_connect_close w e s :
  reachable w ->
  (map_get Nat.eqb (clients w) s = None ->
     result WS.getClientCount (Server.step w (Server.Connection e s)) = Some (S (List.length (clients w)))) /\
  (forall c, map_get Nat.eqb (clients w) s = Some c ->
     result WS.getClientCount (Server.step w (Server.WsClose s)) = Some (List.length (clients w) - 1)) /\
  (map_get Nat.eqb (clients w) s = None ->
     result WS.getClientCount (Server.step w (Server.WsClose s)) = Some (List.length (clients w))).
Proof.
  intros Hr. split; [|split].
  - intros Hn. simpl. rewrite (addClient_fresh_eq e s w Hn). unfold result, WS.getClientCount, gets.
    simpl. rewrite length_app. simpl. f_equal. lia.
  - intros c Hc. simpl. unfold exec. rewrite (removeClient_present s c w Hc).
    unfold result, WS.getClientCount, gets, add_sent, heap_upd, set_clients. cbn [clients].
    pose proof (delete_length Nat.eqb Nat.eqb_eq (clients w) s c (inv_keys w (reachable_inv w Hr)) Hc).
    f_equal. unfold socket in *. lia.
  - intros Hn. simpl. unfold exec. rewrite (removeClient_absent s w Hn). reflexivity.
Qed.

Lemma client_count_connect_close_witness :
  (map_get Nat.eqb (clients w_two) 3 = None ->
     result WS.getClientCount (Server.step w_two (Server.Connection env1 3)) = Some (S (List.length (clients w_two)))) /\
  (forall c, map_get Nat.eqb (clients w_two) 3 = Some c ->
     result WS.getClientCount (Server.step w_two (Server.WsClose 3)) = Some (List.length (clients w_two) - 1)) /\
  (map_get Nat.eqb (clients w_two) 3 = None ->
     result WS.getClientCount (Server.step w_two (Server.WsClose 3)) = Some (List.length (clients w_two))).
Proof. apply client_count_connect_close. exact w_two_reachable. Defined.

Lemma delete_appended (m : list (socket * Client)) s c :
  map_get Nat.eqb m s = None -> map_delete Nat.eqb (m ++ [(s, c)]) s = m.
Proof.
  intros H. unfold map_delete. rewrite filter_app. simpl. rewrite Nat.eqb_refl. simpl.
  rewrite app_nil_r. fold (map_delete Nat.eqb m s).
  exact (delete_absent Nat.eqb Nat.eqb_eq m s (get_none_notin Nat.eqb Nat.eqb_eq m s H)).
Qed.

(** A connection that opens and closes without sending anything leaves
    the server as it found it when its identity is not already held: in a
    reachable world, [connection] of a new socket followed by its [close]
    restores [clients] and the cursor table, and the only trace is the
    welcome (if the socket was OPEN), one [user_joined] and one
    [user_left] notice to every other registered OPEN socket. *)
Theorem connect_then_close_restores w e s :
  reachable w ->
  map_get Nat.eqb (clients w) s = None ->
  ~ In (user_id (now e) (rnd_id e)) (live_ids w) ->
  let uid := user_id (now e) (rnd_id e) in
  let w' := Server.run w [Server.Connection e s; Server.WsClose s] in
  clients w' = clients w /\
  cursor_table w' = cursor_table w /\
  is_open w' = is_open w /\
  sent w' = sent w ++
    (if is_open w s
     then [(s, mkMessage (js "user_joined") uid
                 (DWelcome uid (js "Connected successfully!") (cursor_table w)))]
     else [])
    ++ fanout (live w)
         (mkMessage (js "user_joined") uid (DNotice uid (uid ++ js " joined the session")))
    ++ fanout (live w)
         (mkMessage (js "user_left") uid (DNotice uid (uid ++ js " left the session"))).
Proof.
  intros Hr Hs Hu uid w'. unfold w', Server.run. cbn [fold_left Server.step].
  rewrite (addClient_fresh_eq e s w Hs). fold uid.
  set (L := (if is_open w s then _ else []) ++ _).
  set (w1 := add_sent _ L).
  assert (H1 : map_get Nat.eqb (clients w1) s = Some (mkClient s uid None))
    by exact (map_get_app_absent (clients w) s _ Hs).
  unfold exec. rewrite (removeClient_present s _ w1 H1). cbv zeta iota.
  set (w2 := heap_upd _ _ _).
  assert (Hc2 : clients w2 = clients w)
    by exact (delete_appended (clients w) s _ Hs).
  assert (Ht2 : cursor_table w2 = cursor_table w).
  { unfold w2. rewrite cursor_table_heap_upd.
    exact (delete_absent jsstr_eqb jsstr_eqb_spec _ _
             (table_key_live w uid (reachable_inv w Hr) Hu)). }
  assert (Ho2 : is_open w2 = is_open w) by reflexivity.
  assert (Hs2 : sent w2 = sent w ++ L) by reflexivity.
  assert (Hl : live_others w2 s = live w).
  { unfold live_others. rewrite Hc2, Ho2. fold (live_others w s).
    apply live_others_absent. exact (get_none_notin Nat.eqb Nat.eqb_eq _ _ Hs). }
  change (clients (add_sent w2 ?F)) with (clients w2).
  change (cursor_table (add_sent w2 ?F)) with (cursor_table w2).
  change (is_open (add_sent w2 ?F)) with (is_open w2).
  change (sent (add_sent w2 ?F)) with (sent w2 ++ F).
  rewrite Hc2, Ht2, Ho2, Hs2, Hl. unfold L. rewrite <- !app_assoc.
  split; [reflexivity|]. split; [reflexivity|]. split; reflexivity.
Qed.

Lemma connect_then_close_restores_witness :
  let uid := user_id (now env1) (js "zz9") in
  let w' := Server.run w_two [Server.Connection (mkEnv (now env1) 0 (js "zz9")) 3; Server.WsClose 3] in
  clients w' = clients w_two /\
  cursor_table w' = cursor_table w_two /\
  is_open w' = is_open w_two /\
  sent w' = sent w_two ++
    (if is_open w_two 3
     then [(3, mkMessage (js "user_joined") uid
                 (DWelcome uid (js "Connected successfully!") (cursor_table w_two)))]
     else [])
    ++ fanout (live w_two)
         (mkMessage (js "user_joined") uid (DNotice uid (uid ++ js " joined the session")))
    ++ fanout (live w_two)
         (mkMessage (js "user_left") uid (DNotice uid (uid ++ js " left the session"))).
Proof.
  apply (connect_then_close_restores w_two (mkEnv (now env1) 0 (js "zz9")) 3).
  - exact w_two_reachable.
  - vm_compute. reflexivity.
  - vm_compute. intros [H|[H|[]]]; discriminate.
Defined.

(** After an accepted [cursor_update] from a registered socket in a
    reachable world, the sender's [Client.cursor] and its entry in the
    [cursors] Map are the same [Cursor]: the payload's [x] and [y] as
    given, stamped with the current time. *)
Theorem cursor_update_mirrors_client e s p w c :
  reachable w ->
  map_get Nat.eqb (clients w) s = Some c ->
  is_str (prop (parsed_of c p) (js "type")) (js "cursor_update") = true ->
  prop (parsed_of c p) (js "data") <> JUndef ->
  prop (parsed_of c p) (js "data") <> JNull ->
  let d := prop (parsed_of c p) (js "data") in
  let w' := exec (WS.handleMessage e s p) w in
  exists cur,
    map_get Nat.eqb (clients w') s = Some (mkClient s (userId c) (Some cur)) /\
    map_get jsstr_eqb (cursor_table w') (userId c) = Some cur /\
    x cur = prop d (js "x") /\ y cur = prop d (js "y") /\ lastSeen cur = now e.
Proof.
  intros Hr Hc Ht Hd1 Hd2 d w'.
  assert (Hws : ws c = s)
    by exact (inv_ws w (reachable_inv w Hr) s c (get_some_in Nat.eqb Nat.eqb_eq _ _ _ Hc)).
  destruct (handleMessage_cursor_effects e w s c p Hc Hws Ht Hd1 Hd2) as [E1 [E2 _]].
  fold d in E1, E2. fold w' in E1, E2.
  eexists. rewrite E1, E2.
  split; [apply map_get_set; apply Nat.eqb_refl|].
  split; [apply map_get_set; apply jsstr_eqb_refl|].
  split; [reflexivity|]. split; reflexivity.
Qed.

Lemma cursor_update_mirrors_client_witness :
  let c := mkClient 1 (user_id (now env1) (rnd_id env1)) None in
  let d := prop (parsed_of c p_cursor_ok) (js "data") in
  let w' := exec (WS.handleMessage env1 1 p_cursor_ok) w_two in
  exists cur,
    map_get Nat.eqb (clients w') 1 = Some (mkClient 1 (userId c) (Some cur)) /\
    map_get jsstr_eqb (cursor_table w') (userId c) = Some cur /\
    x cur = prop d (js "x") /\ y cur = prop d (js "y") /\ lastSeen cur = now env1.
Proof.
  apply (cursor_update_mirrors_client env1 1 p_cursor_ok w_two
           (mkClient 1 (user_id (now env1) (rnd_id env1)) None)).
  - exact w_two_reachable.
  - vm_compute. reflexivity.
  - vm_compute. reflexivity.
  - vm_compute. discriminate.
  - vm_compute. discriminate.
Defined.

(* ------------------------------------------------------------------ *)
(** ** The client's [throttle] *)

Definition one_timer {A} (st : Throttle.state A) : Prop :=
  Throttle.timers st = [] \/
  exists i due a, Throttle.timers st = [(i, due, a)] /\ Throttle.timeoutId st = Some i.

Lemma clear_one {A} i due (a : A) : Throttle.clearTimeout i [(i, due, a)] = [].
Proof. unfold Throttle.clearTimeout. simpl. rewrite Nat.eqb_refl. reflexivity. Qed.

Lemma throttle_pending_cleared {A} (st : Throttle.state A) :
  one_timer st ->
  match Throttle.timeoutId st with
  | Some i => Throttle.clearTimeout i (Throttle.timers st)
  | None => Throttle.timers st
  end = [].
Proof.
  intros [H|[i [due [a [H1 H2]]]]].
  - rewrite H. destruct (Throttle.timeoutId st); reflexivity.
  - rewrite H1, H2. apply clear_one.
Qed.

Lemma one_timer_step {A} delay (st st' : Throttle.state A) :
  one_timer st -> Throttle.tstep delay st st' -> one_timer st'.
Proof.
  intros Hi Hs. destruct Hs as [now a st|i now st st' Hf].
  - unfold Throttle.throttle. destruct (Z.ltb delay (now - Throttle.lastExecTime st)%Z).
    + exact Hi.
    + right. cbv zeta. rewrite (throttle_pending_cleared st Hi). simpl.
      do 3 eexists. split; reflexivity.
  - unfold Throttle.fire in Hf. destruct Hi as [H|[j [due [b [H1 H2]]]]].
    + rewrite H in Hf. discriminate.
    + rewrite H1 in Hf. simpl in Hf. destruct (Nat.eqb j i) eqn:E; [|discriminate].
      apply Nat.eqb_eq in E; subst j.
      destruct (Z.leb due now); [|discriminate]. injection Hf as <-.
      left. reflexivity.
Qed.

Lemma one_timer_reach {A} delay (st : Throttle.state A) : Throttle.reach delay st -> one_timer st.
Proof.
  induction 1 as [|st st' _ IH Hs]; [left; reflexivity|].
  exact (one_timer_step delay st st' IH Hs).
Qed.

(** The throttled closure never has more than one delayed call queued,
    and the queued one is always the timer [timeoutId] names, so the
    [clearTimeout(timeoutId)] of the next deferred call cancels it. *)
Theorem throttle_single_timer {A} delay (st : Throttle.state A) :
  Throttle.reach delay st ->
  Throttle.timers st = [] \/
  exists i due a, Throttle.timers st = [(i, due, a)] /\ Throttle.timeoutId st = Some i.
Proof. exact (one_timer_reach delay st). Qed.

Lemma throttle_single_timer_witness :
  let st := Throttle.throttle 16 1005 7 (Throttle.throttle 16 1000 5 (@Throttle.init nat)) in
  Throttle.timers st = [] \/
  exists i due a, Throttle.timers st = [(i, due, a)] /\ Throttle.timeoutId st = Some i.
Proof.
  apply (throttle_single_timer 16%Z).
  apply (Throttle.r_step 16%Z _ _ (Throttle.r_step 16%Z _ _ (Throttle.r_init 16%Z) (Throttle.t_call 16%Z 1000%Z 5 _))
           (Throttle.t_call 16%Z 1005%Z 7 _)).
Defined.

(** One call of the throttled closure: more than [delay] ms after the
    last execution it runs [func] at once (a queued delayed call stays
    queued); otherwise it runs nothing now, replaces any queued call by
    one with these arguments, due [delay] ms after the last execution,
    and that timer, run at or after its due time, calls [func] with them. *)
Theorem throttle_call_effect {A} delay (st : Throttle.state A) now a :
  Throttle.reach delay st ->
  let st' := Throttle.throttle delay now a st in
  ((delay < now - Throttle.lastExecTime st)%Z ->
     Throttle.calls st' = Throttle.calls st ++ [a] /\
     Throttle.timers st' = Throttle.timers st /\ Throttle.lastExecTime st' = now) /\
  ((now - Throttle.lastExecTime st <= delay)%Z ->
     Throttle.calls st' = Throttle.calls st /\
     Throttle.lastExecTime st' = Throttle.lastExecTime st /\
     exists i, Throttle.timers st' = [(i, (Throttle.lastExecTime st + delay)%Z, a)] /\
       Throttle.timeoutId st' = Some i /\
       forall t, (Throttle.lastExecTime st + delay <= t)%Z ->
         exists st'', Throttle.fire i t st' = Some st'' /\
           Throttle.calls st'' = Throttle.calls st ++ [a] /\ Throttle.timers st'' = []).
Proof.
  intros Hr st'. pose proof (one_timer_reach delay st Hr) as Hi. unfold st', Throttle.throttle.
  split.
  - intros Hlt. apply Z.ltb_lt in Hlt. rewrite Hlt. simpl. split; [|split]; reflexivity.
  - intros Hle. destruct (Z.ltb delay (now - Throttle.lastExecTime st)%Z) eqn:E.
    + apply Z.ltb_lt in E. lia.
    + cbv zeta. rewrite (throttle_pending_cleared st Hi). simpl.
      split; [reflexivity|]. split; [reflexivity|].
      exists (Throttle.next_id st).
      replace (now + (delay - (now - Throttle.lastExecTime st)))%Z
        with (Throttle.lastExecTime st + delay)%Z by lia.
      split; [reflexivity|]. split; [reflexivity|].
      intros t Ht. unfold Throttle.fire. simpl. rewrite Nat.eqb_refl.
      apply Z.leb_le in Ht. rewrite Ht.
      eexists; split; [reflexivity|]. split; [reflexivity|]. reflexivity.
Qed.

Lemma throttle_call_effect_witness :
  let st := Throttle.throttle 16 1000 5 (@Throttle.init nat) in
  let st' := Throttle.throttle 16 1005 7 st in
  ((16 < 1005 - Throttle.lastExecTime st)%Z ->
     Throttle.calls st' = Throttle.calls st ++ [7] /\
     Throttle.timers st' = Throttle.timers st /\ Throttle.lastExecTime st' = 1005%Z) /\
  ((1005 - Throttle.lastExecTime st <= 16)%Z ->
     Throttle.calls st' = Throttle.calls st /\
     Throttle.lastExecTime st' = Throttle.lastExecTime st /\
     exists i, Throttle.timers st' = [(i, (Throttle.lastExecTime st + 16)%Z, 7)] /\
       Throttle.timeoutId st' = Some i /\
       forall t, (Throttle.lastExecTime st + 16 <= t)%Z ->
         exists st'', Throttle.fire i t st' = Some st'' /\
           Throttle.calls st'' = Throttle.calls st ++ [7] /\ Throttle.timers st'' = []).
Proof.
  apply (throttle_call_effect 16%Z).
  apply (Throttle.r_step 16%Z _ _ (Throttle.r_init 16%Z) (Throttle.t_call 16%Z 1000%Z 5 _)).
Defined.

(** An immediate call does not cancel a delayed one: if [b] is deferred
    and a later call [c] comes more than [delay] ms after the last
    execution before [b]'s timer has run, [func] sees [c] and then the
    older [b], so the last cursor position sent is a stale one. *)
Theorem throttle_stale_after_fresh {A} delay (st : Throttle.state A) t1 t2 t3 t4 a b c :
  Throttle.reach delay st ->
  (delay < t1 - Throttle.lastExecTime st)%Z ->
  (t2 - t1 <= delay)%Z ->
  (delay < t3 - t1)%Z ->
  (t3 <= t4)%Z ->
  let s3 := Throttle.throttle delay t3 c
              (Throttle.throttle delay t2 b (Throttle.throttle delay t1 a st)) in
  exists i s4, Throttle.fire i t4 s3 = Some s4 /\ Throttle.calls s4 = Throttle.calls st ++ [a; c; b].
Proof.
  intros Hr H1 H2 H3 H4 s3.
  pose proof (one_timer_reach delay st Hr) as Hi.
  assert (Hr1 : Throttle.reach delay (Throttle.throttle delay t1 a st))
    by exact (Throttle.r_step delay _ _ Hr (Throttle.t_call delay t1 a st)).
  destruct (throttle_call_effect delay st t1 a Hr) as [E1 _].
  destruct (E1 H1) as [C1 [T1 L1]].
  destruct (throttle_call_effect delay _ t2 b Hr1) as [_ E2].
  rewrite L1 in E2. destruct (E2 H2) as [C2 [L2 [i [T2 [_ F2]]]]].
  set (s2 := Throttle.throttle delay t2 b _) in *.
  unfold s3, Throttle.throttle at 1. fold s2.
  rewrite L2. assert (H3' : Z.ltb delay (t3 - t1) = true) by (apply Z.ltb_lt; exact H3).
  rewrite H3'. exists i.
  destruct (F2 t4 ltac:(lia)) as [s4 [Hf [C4 _]]].
  unfold Throttle.fire in *. simpl. rewrite T2 in *. simpl in *. rewrite Nat.eqb_refl in *.
  assert (Hd : Z.leb (t1 + delay) t4 = true) by (apply Z.leb_le; lia). rewrite Hd.
  eexists; split; [reflexivity|]. simpl. rewrite C2, C1. rewrite <- !app_assoc. reflexivity.
Qed.

Lemma throttle_stale_after_fresh_witness :
  let st := @Throttle.init nat in
  let s3 := Throttle.throttle 16 1020 3 (Throttle.throttle 16 1005 2 (Throttle.throttle 16 1000 1 st)) in
  exists i s4, Throttle.fire i 1021 s3 = Some s4 /\ Throttle.calls s4 = Throttle.calls st ++ [1; 3; 2].
Proof.
  apply (throttle_stale_after_fresh 16%Z (@Throttle.init nat) 1000%Z 1005%Z 1020%Z 1021%Z 1 2 3).
  - exact (Throttle.r_init 16%Z).
  - vm_compute. reflexivity.
  - vm_compute. discriminate.
  - vm_compute. reflexivity.
  - vm_compute. discriminate.
Defined.

(* ------------------------------------------------------------------ *)
(** ** The client's chat sender *)

Lemma hex_val_digit d : (d < 16)%N -> Json.hex_val (Admin.hex_digit d) = Some d.
Proof.
  intros Hd.
  assert (H : (d = 0 \/ d = 1 \/ d = 2 \/ d = 3 \/ d = 4 \/ d = 5 \/ d = 6 \/ d = 7 \/
              d = 8 \/ d = 9 \/ d = 10 \/ d = 11 \/ d = 12 \/ d = 13 \/ d = 14 \/ d = 15)%N) by lia.
  repeat (destruct H as [->|H]; [reflexivity|]). subst. reflexivity.
Qed.

Lemma hex_recombine c :
  (c < 65536)%N ->
  ((((c / 4096 mod 16) * 16 + c / 256 mod 16) * 16 + c / 16 mod 16) * 16 + c mod 16 = c)%N.
Proof.
  intros Hc.
  pose proof (N.div_mod c 16 ltac:(lia)) as E0.
  pose proof (N.div_mod (c / 16) 16 ltac:(lia)) as E1.
  pose proof (N.div_mod (c / 256) 16 ltac:(lia)) as E2.
  rewrite N.Div0.div_div in E1. rewrite N.Div0.div_div in E2.
  change (16 * 16)%N with 256%N in E1. change (256 * 16)%N with 4096%N in E2.
  assert (Ha : (c / 4096 < 16)%N) by (apply N.Div0.div_lt_upper_bound; lia).
  rewrite (N.mod_small (c / 4096) 16 Ha). lia.
Qed.

Lemma p_chars_escape c s acc :
  (c < 65536)%N -> Json.p_chars (Admin.unicode_escape c ++ s) acc = Json.p_chars s (c :: acc).
Proof.
  intros Hc. unfold Admin.unicode_escape. simpl.
  rewrite !hex_val_digit by (apply N.mod_lt; lia).
  rewrite hex_recombine by exact Hc. reflexivity.
Qed.

Lemma p_chars_cp c s acc :
  (c < 65536)%N -> Json.p_chars (Admin.quote_cp c ++ s) acc = Json.p_chars s (c :: acc).
Proof.
  intros Hc. unfold Admin.quote_cp.
  destruct (N.eqb c 8) eqn:E8; [apply N.eqb_eq in E8; subst; reflexivity|].
  destruct (N.eqb c 9) eqn:E9; [apply N.eqb_eq in E9; subst; reflexivity|].
  destruct (N.eqb c 10) eqn:E10; [apply N.eqb_eq in E10; subst; reflexivity|].
  destruct (N.eqb c 12) eqn:E12; [apply N.eqb_eq in E12; subst; reflexivity|].
  destruct (N.eqb c 13) eqn:E13; [apply N.eqb_eq in E13; subst; reflexivity|].
  destruct (N.eqb c 34) eqn:E34; [apply N.eqb_eq in E34; subst; reflexivity|].
  destruct (N.eqb c 92) eqn:E92; [apply N.eqb_eq in E92; subst; reflexivity|].
  destruct (N.ltb c 32 || Admin.is_lead c || Admin.is_trail c) eqn:Eu.
  - apply p_chars_escape; exact Hc.
  - apply orb_false_iff in Eu as [Eu _]. apply orb_false_iff in Eu as [Eu _].
    simpl. rewrite E34, Eu, E92. reflexivity.
Qed.

Lemma p_chars_plain c s acc :
  Admin.is_lead c = true -> Json.p_chars (c :: s) acc = Json.p_chars s (c :: acc).
Proof.
  unfold Admin.is_lead. intros H. apply andb_prop in H as [H _]. apply N.leb_le in H.
  simpl. replace (N.eqb c 34) with false by (symmetry; apply N.eqb_neq; lia).
  replace (N.ltb c 32) with false by (symmetry; apply N.ltb_ge; lia).
  replace (N.eqb c 92) with false by (symmetry; apply N.eqb_neq; lia). reflexivity.
Qed.

Lemma p_chars_plain_trail c s acc :
  Admin.is_trail c = true -> Json.p_chars (c :: s) acc = Json.p_chars s (c :: acc).
Proof.
  unfold Admin.is_trail. intros H. apply andb_prop in H as [H _]. apply N.leb_le in H.
  simpl. replace (N.eqb c 34) with false by (symmetry; apply N.eqb_neq; lia).
  replace (N.ltb c 32) with false by (symmetry; apply N.ltb_ge; lia).
  replace (N.eqb c 92) with false by (symmetry; apply N.eqb_neq; lia). reflexivity.
Qed.

Lemma p_chars_quote_units m rest acc :
  Forall (fun u => u < 65536)%N m ->
  Json.p_chars (Admin.quote_units m ++ 34%N :: rest) acc = Some (rev acc ++ m, rest).
Proof.
  remember (List.length m) as n eqn:Hn. revert m acc Hn.
  induction n as [n IH] using (well_founded_induction lt_wf).
  intros m acc Hn Hf. destruct m as [|c r].
  - simpl. rewrite app_nil_r. reflexivity.
  - inversion Hf as [|? ? Hc Hr]; subst. simpl Admin.quote_units.
    destruct (Admin.is_lead c) eqn:El.
    + destruct r as [|d r'].
      * rewrite (p_chars_cp c _ acc Hc). simpl; try rewrite <- app_assoc; reflexivity.
      * inversion Hr as [|? ? Hd Hr']; subst.
        destruct (Admin.is_trail d) eqn:Et.
        -- simpl app. rewrite (p_chars_plain c _ _ El), (p_chars_plain_trail d _ _ Et).
           rewrite (IH (List.length r') ltac:(simpl; lia) r' (d :: c :: acc) eq_refl Hr').
           simpl; rewrite <- ?app_assoc; reflexivity.
        -- rewrite <- app_assoc, (p_chars_cp c _ acc Hc).
           rewrite (IH (List.length (d :: r')) ltac:(simpl; lia) (d :: r') (c :: acc) eq_refl Hr).
           simpl; try rewrite <- app_assoc; reflexivity.
    + rewrite <- app_assoc, (p_chars_cp c _ acc Hc).
      rewrite (IH (List.length r) ltac:(simpl; lia) r (c :: acc) eq_refl Hr).
      simpl; try rewrite <- app_assoc; reflexivity.
Qed.

Lemma Forall_js (s : string) : Forall (fun u => u < 65536)%N (js s).
Proof.
  unfold js. induction s as [|a s IH]; simpl; constructor; [|exact IH].
  destruct a as [[] [] [] [] [] [] [] []]; reflexivity.
Qed.

Lemma p_value_str f s rest :
  Forall (fun u => u < 65536)%N s -> Json.p_value (S f) (Admin.quote s ++ rest) = Some (JStr s, rest).
Proof.
  intros Hs. unfold Admin.quote. rewrite <- !app_assoc. simpl.
  rewrite (p_chars_quote_units s rest [] Hs). reflexivity.
Qed.

Lemma p_value_obj f k rest :
  Json.p_value (S f) (123%N :: Admin.quote k ++ rest) = Json.p_members f [] (Admin.quote k ++ rest).
Proof. reflexivity. Qed.

Lemma p_members_comma f acc k vtext v r3 r4 :
  Forall (fun u => u < 65536)%N k ->
  Json.p_value f vtext = Some (v, r3) -> Json.skip_ws r3 = 44%N :: r4 ->
  Json.p_members (S f) acc (Admin.quote k ++ 58%N :: vtext) = Json.p_members f (acc ++ [(k, v)]) r4.
Proof.
  intros Hk Hv Hr. unfold Admin.quote. rewrite <- !app_assoc. simpl.
  rewrite (p_chars_quote_units k _ [] Hk). simpl. rewrite Hv, Hr. reflexivity.
Qed.

Lemma p_members_close f acc k vtext v r3 r4 :
  Forall (fun u => u < 65536)%N k ->
  Json.p_value f vtext = Some (v, r3) -> Json.skip_ws r3 = 125%N :: r4 ->
  Json.p_members (S f) acc (Admin.quote k ++ 58%N :: vtext) = Some (JObj (acc ++ [(k, v)]), r4).
Proof.
  intros Hk Hv Hr. unfold Admin.quote. rewrite <- !app_assoc. simpl.
  rewrite (p_chars_quote_units k _ [] Hk). simpl. rewrite Hv, Hr. reflexivity.
Qed.

Lemma chat_frame_struct m :
  Admin.chat_frame m =
  123%N :: Admin.quote (js "type") ++ 58%N :: Admin.quote (js "chat_message") ++ 44%N ::
  Admin.quote (js "data") ++ 58%N :: 123%N :: Admin.quote (js "message") ++ 58%N ::
  Admin.quote m ++ [125; 125]%N.
Proof. reflexivity. Qed.

Lemma json_parse_chat_frame m :
  Forall (fun u => u < 65536)%N m -> json_parse (Admin.chat_frame m) = Some (Admin.chat_obj m).
Proof.
  intros Hm. rewrite chat_frame_struct. unfold json_parse.
  set (text := 123%N :: _).
  assert (HL : exists F, List.length text = S (S (S (S (S (S F)))))).
  { exists (List.length text - 6)%nat. unfold text, Admin.quote. simpl. lia. }
  destruct HL as [F HL]. rewrite HL. unfold text.
  assert (Hin : Json.p_value (S (S (S (S F)))) (123%N :: Admin.quote (js "message") ++ 58%N :: Admin.quote m ++ [125; 125]%N)
                = Some (JObj [(js "message", JStr m)], [125%N])).
  { rewrite p_value_obj. apply (p_members_close _ [] _ _ (JStr m) [125; 125]%N).
    - apply Forall_js.
    - apply p_value_str; exact Hm.
    - reflexivity. }
  rewrite p_value_obj.
  erewrite p_members_comma;
    [| apply Forall_js | apply p_value_str; apply Forall_js | reflexivity].
  erewrite p_members_close; [| apply Forall_js | exact Hin | reflexivity].
  reflexivity.
Qed.





(** The frame [sendMessage] writes comes back as a chat: when a registered
    socket delivers [JSON.stringify({ type: "chat_message", data: { message } })],
    [handleMessage] sends every registered OPEN socket, the sender included,
    a [chat_message] from the sender's identity whose text is exactly
    [message], escapes, quotes and lone surrogates included. *)
Theorem chat_frame_relayed e s c w m :
  map_get Nat.eqb (clients w) s = Some c ->
  Forall (fun u => u < 65536)%N m ->
  exec (WS.handleMessage e s (Admin.chat_frame m)) w =
  add_sent w (fanout (live w)
    (mkMessage (js "chat_message") (userId c) (DChat (userId c) (JStr m) (now e)))).
Proof.
  intros Hc Hm.
  assert (Hp : parsed_of c (Admin.chat_frame m) = Admin.chat_obj m)
    by (unfold parsed_of; rewrite (json_parse_chat_frame m Hm); reflexivity).
  unfold exec. rewrite (handleMessage_chat e w s c (Admin.chat_frame m) Hc); rewrite Hp;
    try reflexivity; discriminate.
Qed.

Lemma chat_frame_relayed_witness :
  let m := [104; 105; 34; 10; 0xD800; 92]%N in
  let c := mkClient 1 (user_id (now env1) (rnd_id env1)) None in
  exec (WS.handleMessage env2 1 (Admin.chat_frame m)) w_two =
  add_sent w_two (fanout (live w_two)
    (mkMessage (js "chat_message") (userId c) (DChat (userId c) (JStr m) (now env2)))).
Proof.
  apply chat_frame_relayed.
  - vm_compute. reflexivity.
  - repeat constructor.
Defined.
